(** * Fitracker editor: the [/save-exercise] write path of [server.js]

    A shallow embedding of the request handler that saves or updates one
    exercise in the remote JSON document, followed by the properties of the
    optimistic-concurrency check, the tree validator and the merge step.

    Strings: a JavaScript string is a sequence of UTF-16 code units.  The
    model uses [string], whose characters are the code units below 256;
    [trim], [toLowerCase] and the identifier pattern are written out for
    that range. *)

From Stdlib Require Import ZArith Ascii String List Sorted Permutation Lia.
From stdpp Require Import base decidable option list gmap strings sorting.

Local Open Scope Z_scope.

(** ** JavaScript string primitives *)

Module Js.

(** Code unit of a character. *)
Definition code (c : ascii) : N := N_of_ascii c.

(** ECMAScript [WhiteSpace] and [LineTerminator] code points below 256:
    TAB, LF, VT, FF, CR, SP and NBSP. *)
Definition isWhiteSpace (c : ascii) : bool :=
  let n := code c in
  ((9 <=? n) && (n <=? 13) || (n =? 32) || (n =? 160))%N.

(** [String.prototype.trimStart]. *)
Fixpoint trimStart (s : string) : string :=
  match s with
  | EmptyString => EmptyString
  | String c r => if isWhiteSpace c then trimStart r else s
  end.

(** [String.prototype.trimEnd]. *)
Fixpoint trimEnd (s : string) : string :=
  match s with
  | EmptyString => EmptyString
  | String c r =>
      match trimEnd r with
      | EmptyString => if isWhiteSpace c then EmptyString else String c EmptyString
      | r' => String c r'
      end
  end.

(** [String.prototype.trim]. *)
Definition trim (s : string) : string := trimEnd (trimStart s).

(** One character of the class [[a-z0-9-]]. *)
Definition isIdChar (c : ascii) : bool :=
  let n := code c in
  ((97 <=? n) && (n <=? 122) || (48 <=? n) && (n <=? 57) || (n =? 45))%N.

Fixpoint allIdChars (s : string) : bool :=
  match s with
  | EmptyString => true
  | String c r => isIdChar c && allIdChars r
  end.

(** [/^[a-z0-9-]+$/.test(s)]: one or more characters, all of the class
    (without the [m] flag, [$] matches at the end of the input only). *)
Definition testIdPattern (s : string) : bool :=
  match s with
  | EmptyString => false
  | String _ _ => allIdChars s
  end.

(** Case mapping of one code unit below 256: A-Z, and the Latin-1 capitals
    U+00C0..U+00DE apart from the multiplication sign U+00D7. *)
Definition lowerChar (c : ascii) : ascii :=
  let n := code c in
  if ((65 <=? n) && (n <=? 90)
      || (192 <=? n) && (n <=? 222) && negb (n =? 215))%N
  then ascii_of_N (n + 32) else c.

(** [String.prototype.toLowerCase]. *)
Fixpoint toLowerCase (s : string) : string :=
  match s with
  | EmptyString => EmptyString
  | String c r => String (lowerChar c) (toLowerCase r)
  end.

(** Truthiness of a string: every string but the empty one. *)
Definition truthyString (s : string) : bool :=
  match s with EmptyString => false | String _ _ => true end.

(** Truthiness of a value that is a string or [undefined]. *)
Definition truthy (v : option string) : bool :=
  match v with Some s => truthyString s | None => false end.

(** [a === b] on values that are strings or [undefined]. *)
Definition strictEq (a b : option string) : bool := bool_decide (a = b).

End Js.

(** ** Data model *)

(** A node below the exercise level, as it is stored in the document and as
    [processVariations] builds it.  An absent field is [None]:
    [JSON.stringify] leaves out a property whose value is [undefined]. *)
#[warnings="-register-all"]
Inductive Node : Type := mkNode {
  n_id : string;
  n_name : string;
  n_imageUrl : option string;
  n_isUnilateral : bool;
  n_subVariations : option (list Node);
  n_executionTypes : option (list Node)
}.

(** A top-level exercise. *)
Record Exercise : Type := mkExercise {
  e_id : string;
  e_name : string;
  e_variations : option (list Node)
}.

(** One group of the document. *)
Record Group : Type := mkGroup {
  g_group : string;
  g_items : list Exercise
}.

Abbreviation Document := (list Group).

(** The value of [isUnilateral] in a submitted node: the urlencoded form
    sends strings; a JSON document read back holds booleans. *)
Inductive Flag : Type :=
  | FlagUndefined
  | FlagString (s : string)
  | FlagBool (b : bool).

(** A submitted node, before validation. *)
#[warnings="-register-all"]
Inductive RawNode : Type := mkRaw {
  r_id : option string;
  r_name : option string;
  r_imageUrl : option string;
  r_isUnilateral : Flag;
  r_subVariations : option (list RawNode);
  r_executionTypes : option (list RawNode)
}.

(** [req.body] of [/save-exercise]. *)
Record Body : Type := mkBody {
  editMode : option string;
  originalBaseId : option string;
  fileSha : option string;
  group : option string;
  baseId : option string;
  baseName : option string;
  variations : option (list RawNode)
}.

(** The three values of [levelName]. *)
Inductive Level : Type := Variacion | SubVariacion | TipoEjecucion.

(** The errors thrown inside [processVariations]. *)
Inductive ValidationError : Type :=
  | InvalidId (levelName : Level)
  | EmptyName (levelName : Level)
  | DuplicateId (levelName : Level) (itemId : string).

#[global] Instance Level_eq_dec : EqDecision Level.
Proof. solve_decision. Defined.

#[global] Instance ValidationError_eq_dec : EqDecision ValidationError.
Proof. solve_decision. Defined.

(** ** The set of taken identifiers and the validation monad *)

(** [allIds] and [idsInLevel] are JavaScript [Set]s of strings. *)
Abbreviation IdSet := (gset string).

Definition has (s : IdSet) (x : string) : bool := bool_decide (x ∈ s).
Definition add (x : string) (s : IdSet) : IdSet := {[x]} ∪ s.

(** Outcome of code that may [throw] a validation error. *)
Inductive result (A : Type) : Type :=
  | Ok (a : A)
  | Err (e : ValidationError).
Arguments Ok {A} a.
Arguments Err {A} e.

(** A computation that reads and extends the shared set [allIds] and may
    throw.  When it throws, the request is over and the set is dropped. *)
Definition M (A : Type) : Type := IdSet -> result (A * IdSet).

#[global] Instance M_ret : MRet M := fun A a s => Ok (a, s).
#[global] Instance M_bind : MBind M := fun A B k m s =>
  match m s with
  | Ok (a, s') => k a s'
  | Err e => Err e
  end.

Definition throw {A} (e : ValidationError) : M A := fun _ => Err e.
Definition allIds_has (x : string) : M bool := fun s => Ok (has s x, s).
Definition allIds_add (x : string) : M unit := fun s => Ok (tt, add x s).

(** ** Collecting the identifiers of the current document (lines 193-205) *)

(** [l?.forEach(f)] on a state [S]. *)
Definition forEachOpt {A S} (f : A -> S -> S) (l : option (list A)) (s : S) : S :=
  match l with
  | Some l => foldl (fun s a => f a s) s l
  | None => s
  end.

Definition addExecutionType (et : Node) (s : IdSet) : IdSet := add (n_id et) s.

Definition addSubVariation (sv : Node) (s : IdSet) : IdSet :=
  forEachOpt addExecutionType (n_executionTypes sv) (add (n_id sv) s).

Definition addVariation (v : Node) (s : IdSet) : IdSet :=
  forEachOpt addSubVariation (n_subVariations v) (add (n_id v) s).

(** The body of the inner [forEach(item => ...)]: the item and everything
    below it is skipped when [editMode] is truthy and the item's id is
    [originalBaseId]. *)
Definition addItem (editMode originalBaseId : option string)
    (item : Exercise) (s : IdSet) : IdSet :=
  if negb (Js.truthy editMode)
     || negb (Js.strictEq (Some (e_id item)) originalBaseId)
  then forEachOpt addVariation (e_variations item) (add (e_id item) s)
  else s.

Definition collectAllIds (editMode originalBaseId : option string)
    (currentExerciseData : Document) : IdSet :=
  foldl (fun s g => foldl (fun s item => addItem editMode originalBaseId item s)
                          s (g_items g))
        ∅ currentExerciseData.

(** ** [processVariations] (lines 209-238) *)

(** [item.isUnilateral === 'true'] *)
Definition isTrueString (f : Flag) : bool :=
  match f with
  | FlagString s => bool_decide (s = "true")
  | _ => false
  end.

(** [v || undefined] for a string or [undefined]. *)
Definition orUndefined (v : option string) : option string :=
  if Js.truthy v then v else None.

(** [v ? v.trim() : ''] *)
Definition trimOrEmpty (v : option string) : string :=
  match v with
  | Some s => if Js.truthyString s then Js.trim s else ""
  | None => ""
  end.

(** The field is deleted when the processed array is empty. *)
Definition omitEmpty (l : list Node) : option (list Node) :=
  match l with
  | [] => None
  | _ => Some l
  end.

(** [levelData.map(callback)] where the callback also updates the set
    [idsInLevel], which is local to one call of [processVariations]. *)
Definition mapItems (callback : RawNode -> IdSet -> M (Node * IdSet))
    : list RawNode -> IdSet -> M (list Node) :=
  fix go (levelData : list RawNode) (idsInLevel : IdSet) : M (list Node) :=
    match levelData with
    | [] => mret []
    | item :: rest =>
        '(processedItem, idsInLevel) ← callback item idsInLevel;
        processed ← go rest idsInLevel;
        mret (processedItem :: processed)
    end.

(** The callback of [levelData.map].  The shared [allIds] is the state of
    [M].  The children are processed by the recursive call
    [processVariations(item.subVariations, 'Sub-Variación', itemId)], that is
    a [map] of this callback, one level down, with a fresh [idsInLevel]. *)
Fixpoint processItem (levelName : Level) (item : RawNode)
    (idsInLevel : IdSet) {struct item} : M (Node * IdSet) :=
  let itemId := trimOrEmpty (r_id item) in
  let itemName := trimOrEmpty (r_name item) in
  if negb (Js.truthyString itemId) || negb (Js.testIdPattern itemId)
  then throw (InvalidId levelName)
  else if negb (Js.truthyString itemName)
  then throw (EmptyName levelName)
  else
    taken ← allIds_has itemId;
    if taken || has idsInLevel itemId
    then throw (DuplicateId levelName itemId)
    else
      let idsInLevel := add itemId idsInLevel in
      _ ← allIds_add itemId;
      subVariations ←
        match levelName, item with
        | Variacion, mkRaw _ _ _ _ (Some l) _ =>
            processed ← mapItems (processItem SubVariacion) l ∅;
            mret (omitEmpty processed)
        | _, _ => mret None
        end;
      executionTypes ←
        match levelName, item with
        | SubVariacion, mkRaw _ _ _ _ _ (Some l) =>
            processed ← mapItems (processItem TipoEjecucion) l ∅;
            mret (omitEmpty processed)
        | _, _ => mret None
        end;
      mret ({| n_id := itemId;
               n_name := itemName;
               n_imageUrl := orUndefined (r_imageUrl item);
               n_isUnilateral := isTrueString (r_isUnilateral item);
               n_subVariations := subVariations;
               n_executionTypes := executionTypes |}, idsInLevel).

(** [processVariations(levelData, levelName, parentId)]; [parentId] is not
    used by the function.  Every mapped value is an object, so the final
    [filter(Boolean)] keeps all of them. *)
Definition processVariations (levelData : option (list RawNode))
    (levelName : Level) : M (list Node) :=
  match levelData with
  | None => mret []
  | Some l => mapItems (processItem levelName) l ∅
  end.

(** ** The remote store (the hosting API, seen through its contract) *)

(** The file at [filePath] on [branch]: its decoded content and blob sha. *)
Record RemoteFile : Type := mkRemoteFile {
  content : Document;
  sha : string
}.

Inductive CommitMessage : Type :=
  | MsgUpdate (baseName : string)
  | MsgAdd (baseName : string).

(** The store: the file, if it exists, and the messages of the commits made
    through the editor, newest first. *)
Record Store : Type := mkStore {
  remote : option RemoteFile;
  commits : list CommitMessage
}.

(** ** Responses *)

Inductive BadRequest : Type :=
  | IncompleteData
  | BaseIdExists (baseId : string)
  | ValidationFailed (e : ValidationError).

Inductive Success : Type :=
  | Updated (baseName : string)
  | Added (baseName group : string).

Inductive Response : Type :=
  | Status200 (message : Success)
  | Status400 (message : BadRequest)
  | Status409
  | Status500.

(** What is thrown inside the outer [try] and caught by its [catch]. *)
Inductive Exception : Type :=
  | FetchFailed
  | OriginalNotFound (originalBaseId : string)
  | CommitRejected.

(** How the body of the outer [try] ends. *)
Inductive Completion : Type :=
  | Responded (r : Response)
  | Thrown (e : Exception).

(** ** Arrays *)

(** [Array.prototype.findIndex]; [None] stands for [-1]. *)
Fixpoint findIndex {A} (p : A -> bool) (l : list A) : option nat :=
  match l with
  | [] => None
  | x :: r => if p x then Some 0%nat else S <$> findIndex p r
  end.

(** [Array.prototype.sort(compareFn)].  The sort is stable, and for a
    consistent comparator its result is the stable sorted arrangement, which
    insertion from the right computes: an element goes before the first one
    it does not compare greater than. *)
Fixpoint insertSorted {A} (compareFn : A -> A -> Z) (x : A) (l : list A) : list A :=
  match l with
  | [] => [x]
  | y :: r =>
      if compareFn x y <=? 0 then x :: l else y :: insertSorted compareFn x r
  end.

Definition sort {A} (compareFn : A -> A -> Z) (l : list A) : list A :=
  foldr (insertSorted compareFn) [] l.

Section Server.

(** [String.prototype.localeCompare] of the runtime's default locale. *)
Variable localeCompare : string -> string -> Z.

(** The blob sha the store gives to a content. *)
Variable blobSha : Document -> string.

(** *** The store adapter *)

(** [getExerciseDataFromGithub()]; [None] when the call throws. *)
Definition getExerciseDataFromGithub (st : Store) : option (Document * string) :=
  match remote st with
  | Some f => Some (content f, sha f)
  | None => None
  end.

(** [octokit.repos.createOrUpdateFileContents]: the store applies the new
    content only if [expected] is the sha of the file it holds now; [None]
    when the call throws. *)
Definition createOrUpdateFileContents (message : CommitMessage)
    (newContent : Document) (expected : string) (st : Store) : option Store :=
  match remote st with
  | Some f =>
      if bool_decide (sha f = expected)
      then Some {| remote := Some {| content := newContent;
                                     sha := blobSha newContent |};
                   commits := message :: commits st |}
      else None
  | None => None
  end.

(** *** Building and merging the exercise (lines 248-292) *)

Definition byName (a b : Exercise) : Z := localeCompare (e_name a) (e_name b).
Definition byGroup (a b : Group) : Z := localeCompare (g_group a) (g_group b).
Definition byNodeName (a b : Node) : Z := localeCompare (n_name a) (n_name b).

(** [exerciseObject]: [variations] is deleted when empty and sorted by
    name otherwise. *)
Definition exerciseObject (baseId baseName : string)
    (processedVariations : list Node) : Exercise :=
  {| e_id := baseId;
     e_name := baseName;
     e_variations :=
       match processedVariations with
       | [] => None
       | _ => Some (sort byNodeName processedVariations)
       end |}.

(** Edit mode: the loop over the groups, which replaces the first item
    whose id is [originalBaseId] and stops; [None] when the loop ends with
    [foundAndUpdated] still false. *)
Fixpoint replaceOriginal (originalBaseId : string) (exerciseObject : Exercise)
    (currentExerciseData : Document) : option Document :=
  match currentExerciseData with
  | [] => None
  | g :: rest =>
      match findIndex (fun item => bool_decide (e_id item = originalBaseId))
                      (g_items g) with
      | Some itemIndex =>
          Some ({| g_group := g_group g;
                   g_items := <[itemIndex := exerciseObject]> (g_items g) |}
                :: rest)
      | None => (g ::.) <$> replaceOriginal originalBaseId exerciseObject rest
      end
  end.

(** Add mode: the group is found by its lower-cased name, or pushed, and
    the exercise is pushed to its items. *)
Definition pushToGroup (group : string) (exerciseObject : Exercise)
    (currentExerciseData : Document) : Document :=
  let found :=
    findIndex (fun g => bool_decide (Js.toLowerCase (g_group g)
                                     = Js.toLowerCase group))
              currentExerciseData in
  let '(currentExerciseData, groupIndex) :=
    match found with
    | Some i => (currentExerciseData, i)
    | None => (currentExerciseData ++ [{| g_group := group; g_items := [] |}],
               List.length currentExerciseData)
    end in
  alter (fun g => {| g_group := g_group g;
                     g_items := g_items g ++ [exerciseObject] |})
        groupIndex currentExerciseData.

(** Lines 291-292: the groups are sorted by name, then the items of every
    group. *)
Definition sortAll (currentExerciseData : Document) : Document :=
  (fun g => {| g_group := g_group g; g_items := sort byName (g_items g) |})
    <$> sort byGroup currentExerciseData.

(** [editMode === 'true' && originalBaseId] *)
Definition isEdit (req : Body) : bool :=
  Js.strictEq (editMode req) (Some "true") && Js.truthy (originalBaseId req).

(** *** The handler of [POST /save-exercise] *)

(** The basic validation of line 173; when it passes, the four fields are
    non-empty strings. *)
Definition basicValidation (req : Body) : option (string * string * string * string) :=
  match group req, baseId req, baseName req, fileSha req with
  | Some group, Some baseId, Some baseName, Some fileSha =>
      if negb (Js.truthyString group) || negb (Js.truthyString baseId)
         || negb (Js.truthyString baseName) || negb (Js.testIdPattern baseId)
         || negb (Js.truthyString fileSha)
      then None
      else Some (group, baseId, baseName, fileSha)
  | _, _, _, _ => None
  end.

(** The body of the outer [try].  [interleaved] is what other writers do
    to the store between the read at the start of the request and the
    commit at its end. *)
Definition saveExerciseTry (interleaved : Store -> Store) (req : Body)
    (group baseId baseName fileSha : string) (st : Store) : Completion * Store :=
  match getExerciseDataFromGithub st with
  | None => (Thrown FetchFailed, st)
  | Some (currentExerciseData, currentSha) =>
      if negb (bool_decide (currentSha = fileSha))
      then (Responded Status409, st)
      else
        let allIds :=
          collectAllIds (editMode req) (originalBaseId req) currentExerciseData in
        if has allIds baseId
        then (Responded (Status400 (BaseIdExists baseId)), st)
        else
          match processVariations (variations req) Variacion allIds with
          | Err e => (Responded (Status400 (ValidationFailed e)), st)
          | Ok (processedVariations, _) =>
              let exerciseObject :=
                exerciseObject baseId baseName processedVariations in
              let merged :=
                if isEdit req
                then
                  let originalBaseId := default "" (originalBaseId req) in
                  match replaceOriginal originalBaseId exerciseObject
                                        currentExerciseData with
                  | Some data => inl (data, MsgUpdate baseName, Updated baseName)
                  | None => inr (OriginalNotFound originalBaseId)
                  end
                else
                  inl (pushToGroup group exerciseObject currentExerciseData,
                       MsgAdd baseName, Added baseName group) in
              match merged with
              | inr e => (Thrown e, st)
              | inl (data, commitMessage, successMessage) =>
                  let st := interleaved st in
                  match createOrUpdateFileContents commitMessage (sortAll data)
                                                   currentSha st with
                  | Some st' => (Responded (Status200 successMessage), st')
                  | None => (Thrown CommitRejected, st)
                  end
              end
          end
  end.

(** The handler: the response sent and the store afterwards. *)
Definition saveExercise (interleaved : Store -> Store) (req : Body)
    (st : Store) : Response * Store :=
  match basicValidation req with
  | None => (Status400 IncompleteData, st)
  | Some (group, baseId, baseName, fileSha) =>
      match saveExerciseTry interleaved req group baseId baseName fileSha st with
      | (Responded r, st') => (r, st')
      | (Thrown _, st') => (Status500, st')
      end
  end.

End Server.

(** ** Vocabulary of the statements *)

(** The two fields of [processedItem] that hold the processed children, as
    the callback computes them. *)
Definition subVariationsField (levelName : Level) (item : RawNode)
    : M (option (list Node)) :=
  match levelName, r_subVariations item with
  | Variacion, Some l =>
      processed ← processVariations (Some l) SubVariacion;
      mret (omitEmpty processed)
  | _, _ => mret None
  end.

Definition executionTypesField (levelName : Level) (item : RawNode)
    : M (option (list Node)) :=
  match levelName, r_executionTypes item with
  | SubVariacion, Some l =>
      processed ← processVariations (Some l) TipoEjecucion;
      mret (omitEmpty processed)
  | _, _ => mret None
  end.

(** All top-level exercises of a document, group after group. *)
Definition allExercises (doc : Document) : list Exercise := doc ≫= g_items.

(** The total count of top-level exercises across all groups. *)
Definition exerciseCount (doc : Document) : nat := length (allExercises doc).

(** The identifiers of a stored exercise at its four levels: the exercise,
    its variations, their sub-variations and their execution types. *)
Definition subVariationIds (sv : Node) : list string :=
  n_id sv :: (n_id <$> default [] (n_executionTypes sv)).

Definition variationIds (v : Node) : list string :=
  n_id v :: (default [] (n_subVariations v) ≫= subVariationIds).

Definition exerciseIds (item : Exercise) : list string :=
  e_id item :: (default [] (e_variations item) ≫= variationIds).



(** The normal form of a submitted node, written from the rules of the
    specification that build the output, without the checks: trim [id] and
    [name] (rule 1), map [isUnilateral] from the string ['true'] (rule 5),
    recurse into the children the level permits and omit an empty children
    field (rule 6).  It is compared with [processVariations] below. *)
Fixpoint normalForm (levelName : Level) (item : RawNode) : Node :=
  match item with
  | mkRaw id name imageUrl isUnilateral subVariations executionTypes =>
      {| n_id := trimOrEmpty id;
         n_name := trimOrEmpty name;
         n_imageUrl := orUndefined imageUrl;
         n_isUnilateral := isTrueString isUnilateral;
         n_subVariations :=
           match levelName, subVariations with
           | Variacion, Some l => omitEmpty (normalForm SubVariacion <$> l)
           | _, _ => None
           end;
         n_executionTypes :=
           match levelName, executionTypes with
           | SubVariacion, Some l => omitEmpty (normalForm TipoEjecucion <$> l)
           | _, _ => None
           end |}
  end.

(** Upper-case ASCII letters. *)
Definition isUpperCase (c : ascii) : bool :=
  ((65 <=? Js.code c) && (Js.code c <=? 90))%N.


(** ** Concrete stand-ins for the two parameters, used to run the handler *)

(** A collation for the examples: code-unit order of the lower-cased
    strings. *)
Definition caseFoldCompare (a b : string) : Z :=
  match String.compare (Js.toLowerCase a) (Js.toLowerCase b) with
  | Lt => -1
  | Eq => 0
  | Gt => 1
  end.

(** A sha for the examples: it only has to name the new content. *)
Definition sampleSha (d : Document) : string :=
  String.append "blob:" (String.concat "," (g_group <$> d)).

(** The version token a store reports, if it holds the file. *)
Definition tokenOf (st : Store) : option string := sha <$> remote st.

(** ** Example requests and documents *)

(** A submitted node with an id and a name only. *)
Definition rawNode (id name : string) : RawNode :=
  {| r_id := Some id; r_name := Some name; r_imageUrl := None;
     r_isUnilateral := FlagUndefined;
     r_subVariations := None; r_executionTypes := None |}.

(** A processed node with an id and a name only. *)
Definition leafNode (id name : string) : Node :=
  {| n_id := id; n_name := name; n_imageUrl := None; n_isUnilateral := false;
     n_subVariations := None; n_executionTypes := None |}.

(** A store holding [doc] under the token [token], with no commit yet. *)
Definition storeAt (token : string) (doc : Document) : Store :=
  {| remote := Some {| content := doc; sha := token |}; commits := [] |}.

(** A request to add an exercise. *)
Definition addRequest (token group id name : string)
    (variations : option (list RawNode)) : Body :=
  {| editMode := None; originalBaseId := None; fileSha := Some token;
     group := Some group; baseId := Some id; baseName := Some name;
     variations := variations |}.

(** A request to update the exercise [original]. *)
Definition updateRequest (token original group id name : string)
    (variations : option (list RawNode)) : Body :=
  {| editMode := Some "true"; originalBaseId := Some original;
     fileSha := Some token;
     group := Some group; baseId := Some id; baseName := Some name;
     variations := variations |}.

(** A document with one exercise, which has one variation. *)
Definition legsDocument : Document :=
  [ {| g_group := "Legs";
       g_items := [ {| e_id := "squat"; e_name := "Squat";
                       e_variations := Some [leafNode "front-squat" "Front"] |} ]
    |} ].


(** A document with two groups and three exercises. *)
Definition gymDocument : Document :=
  [ {| g_group := "Back";
       g_items := [ {| e_id := "row"; e_name := "Row"; e_variations := None |} ] |};
    {| g_group := "Legs";
       g_items := [ {| e_id := "lunge"; e_name := "Lunge"; e_variations := None |};
                    {| e_id := "squat"; e_name := "Squat";
                       e_variations := Some [leafNode "front-squat" "Front"] |} ]
    |} ].


(** ** The read route and the first write route *)

(** The JSON answer of [GET /api/exercises] (lines 152-160). *)
Inductive ApiResponse : Type :=
  | ApiData (exercises : Document) (sha : string)
  | ApiError.

(** [GET /api/exercises]: the document and its token, or the 500 answer when
    [getExerciseDataFromGithub] throws. *)
Definition apiExercises (st : Store) : ApiResponse :=
  match getExerciseDataFromGithub st with
  | Some (exercises, sha) => ApiData exercises sha
  | None => ApiError
  end.

(** The answers of [POST /add-exercise] (lines 27-113). *)
Inductive AddResponse : Type :=
  | AddSaved (baseName : string)
  | AddIncomplete
  | AddIdExists (baseId : string)
  | AddServerError.

(** The basic validation of line 31: no [fileSha] is asked for. *)
Definition addValidation (req : Body) : option (string * string * string) :=
  match group req, baseId req, baseName req with
  | Some group, Some baseId, Some baseName =>
      if negb (Js.truthyString group) || negb (Js.truthyString baseId)
         || negb (Js.truthyString baseName) || negb (Js.testIdPattern baseId)
      then None
      else Some (group, baseId, baseName)
  | _, _, _ => None
  end.

(** [exerciseData.some(g => g.items.some(item => item.id === baseId))] *)
Definition idExists (baseId : string) (exerciseData : Document) : bool :=
  existsb (fun g => existsb (fun item => bool_decide (e_id item = baseId))
                            (g_items g))
          exerciseData.

(** Lines 51-55: the index of the group, found by its lower-cased name or
    pushed with no item. *)
Definition findOrPushGroup (group : string) (exerciseData : Document)
    : Document * nat :=
  match findIndex (fun g => bool_decide (Js.toLowerCase (g_group g)
                                         = Js.toLowerCase group))
                  exerciseData with
  | Some groupIndex => (exerciseData, groupIndex)
  | None => (exerciseData ++ [{| g_group := group; g_items := [] |}],
             List.length exerciseData)
  end.

Section FirstServer.

Variable localeCompare : string -> string -> Z.
Variable blobSha : Document -> string.

(** Lines 62-67: the exercise is pushed with an empty [variations] array,
    the groups are sorted, and then the items of the group that stands at
    [groupIndex], the index computed before the groups were sorted. *)
Definition pushAndSort (baseId baseName : string) (groupIndex : nat)
    (exerciseData : Document) : Document :=
  let newExercise :=
    {| e_id := baseId; e_name := baseName; e_variations := Some [] |} in
  let exerciseData :=
    alter (fun g => {| g_group := g_group g;
                       g_items := g_items g ++ [newExercise] |})
          groupIndex exerciseData in
  let exerciseData := sort (byGroup localeCompare) exerciseData in
  alter (fun g => {| g_group := g_group g;
                     g_items := sort (byName localeCompare) (g_items g) |})
        groupIndex exerciseData.

(** The handler of [POST /add-exercise].  [interleaved] is what other
    writers do to the store between the read and the commit; the commit is
    conditioned on the sha read by this same request. *)
Definition addExercise (interleaved : Store -> Store) (req : Body)
    (st : Store) : AddResponse * Store :=
  match addValidation req with
  | None => (AddIncomplete, st)
  | Some (group, baseId, baseName) =>
      match remote st with
      | None => (AddServerError, st)
      | Some fileData =>
          let '(exerciseData, groupIndex) :=
            findOrPushGroup group (content fileData) in
          if idExists baseId exerciseData
          then (AddIdExists baseId, st)
          else
            let st := interleaved st in
            match createOrUpdateFileContents blobSha (MsgAdd baseName)
                    (pushAndSort baseId baseName groupIndex exerciseData)
                    (sha fileData) st with
            | Some st' => (AddSaved baseName, st')
            | None => (AddServerError, st)
            end
      end
  end.

End FirstServer.

(** ** Vocabulary of the further statements *)

(** All identifiers of a document, at its four levels. *)
Definition documentIds (doc : Document) : list string :=
  allExercises doc ≫= exerciseIds.

(** The identifiers of a processed node of a level and of what is below
    it. *)
Definition idsAt (levelName : Level) (n : Node) : list string :=
  match levelName with
  | Variacion => variationIds n
  | SubVariacion => subVariationIds n
  | TipoEjecucion => [n_id n]
  end.

(** [ids] are pairwise distinct, none is in [s], and [s'] is [s] with
    them. *)
Definition addsFresh (s : IdSet) (ids : list string) (s' : IdSet) : Prop :=
  NoDup ids ∧ (∀ x, x ∈ ids → x ∉ s) ∧ (∀ x, x ∈ s' ↔ x ∈ s ∨ x ∈ ids).

(** The fields of a stored node that every level has: an id of the
    identifier syntax, a name that is not empty, no empty image url. *)
Definition fieldsOk (n : Node) : Prop :=
  Js.testIdPattern (n_id n) = true ∧ n_name n ≠ "" ∧ n_imageUrl n ≠ Some "".

(** A children field is absent or holds at least one well-formed child. *)
Definition childrenOk (ok : Node → Prop) (children : option (list Node)) : Prop :=
  match children with
  | None => True
  | Some l => l ≠ [] ∧ Forall ok l
  end.

Definition executionTypeOk (n : Node) : Prop :=
  fieldsOk n ∧ n_subVariations n = None ∧ n_executionTypes n = None.

Definition subVariationOk (n : Node) : Prop :=
  fieldsOk n ∧ n_subVariations n = None
  ∧ childrenOk executionTypeOk (n_executionTypes n).

Definition variationOk (n : Node) : Prop :=
  fieldsOk n ∧ n_executionTypes n = None
  ∧ childrenOk subVariationOk (n_subVariations n).

(** The shape of a node of the strict tree, by level. *)
Definition nodeOk (levelName : Level) : Node → Prop :=
  match levelName with
  | Variacion => variationOk
  | SubVariacion => subVariationOk
  | TipoEjecucion => executionTypeOk
  end.


(** The request [req] with another value in its [group] field. *)
Definition withGroup (req : Body) (g : string) : Body :=
  {| editMode := editMode req; originalBaseId := originalBaseId req;
     fileSha := fileSha req; group := Some g; baseId := baseId req;
     baseName := baseName req; variations := variations req |}.

(** The commit message that goes with a success message. *)
Definition messageOf (m : Success) : CommitMessage :=
  match m with
  | Updated baseName => MsgUpdate baseName
  | Added baseName _ => MsgAdd baseName
  end.


(** ** Facts about the string primitives *)








(** The characters of a string. *)
Abbreviation chars := list_ascii_of_string.

Lemma allIdChars_spec s c :
  Js.allIdChars s = true → c ∈ chars s → Js.isIdChar c = true.
Proof.
  induction s as [|a r IH]; simpl; [by intros _ ?%elem_of_nil|].
  intros [Ha Hr]%andb_prop [->|Hin]%elem_of_cons; auto.
Qed.

Lemma testIdPattern_chars s c :
  c ∈ chars s → Js.isIdChar c = false → Js.testIdPattern s = false.
Proof.
  intros Hin Hc. destruct (Js.testIdPattern s) eqn:Ht; [|done].
  assert (Js.allIdChars s = true) as Hall by (by destruct s).
  by rewrite (allIdChars_spec _ _ Hall Hin) in Hc.
Qed.

Lemma trimStart_keeps s c :
  c ∈ chars s → Js.isWhiteSpace c = false → c ∈ chars (Js.trimStart s).
Proof.
  induction s as [|a r IH]; simpl; [done|].
  intros Hin Hc. destruct (Js.isWhiteSpace a) eqn:Ha; [|done].
  apply elem_of_cons in Hin as [->|Hin]; [congruence|auto].
Qed.

Lemma trimEnd_keeps s c :
  c ∈ chars s → Js.isWhiteSpace c = false → c ∈ chars (Js.trimEnd s).
Proof.
  induction s as [|a r IH]; simpl; [done|].
  intros [->|Hin]%elem_of_cons Hc.
  - destruct (Js.trimEnd r); rewrite ?Hc; simpl; apply elem_of_cons; auto.
  - specialize (IH Hin Hc).
    destruct (Js.trimEnd r); [by apply elem_of_nil in IH|].
    simpl. apply elem_of_cons. by right.
Qed.

Lemma trim_keeps s c :
  c ∈ chars s → Js.isWhiteSpace c = false → c ∈ chars (Js.trim s).
Proof.
  intros Hin Hc. unfold Js.trim.
  apply trimEnd_keeps; [|done]. by apply trimStart_keeps.
Qed.

(** ** Facts about [sort] *)

Section sort_facts.
Context {A : Type} (compareFn : A → A → Z).

Lemma insertSorted_Permutation x l : insertSorted compareFn x l ≡ₚ x :: l.
Proof.
  induction l as [|y l IH]; simpl; [done|].
  destruct (compareFn x y <=? 0); [done|].
  by rewrite IH, Permutation_swap.
Qed.

Lemma sort_Permutation l : sort compareFn l ≡ₚ l.
Proof.
  induction l as [|x l IH]; simpl; [done|].
  by rewrite insertSorted_Permutation, IH.
Qed.



Hypothesis compareFn_total : ∀ a b, compareFn a b <= 0 ∨ compareFn b a <= 0.

Lemma insertSorted_Sorted x l :
  Sorted (λ a b, compareFn a b <= 0) l →
  Sorted (λ a b, compareFn a b <= 0) (insertSorted compareFn x l).
Proof.
  induction 1 as [|y l Hl IH Hy]; simpl.
  - by repeat constructor.
  - destruct (Z.leb_spec (compareFn x y) 0) as [Hxy|Hxy].
    + by repeat constructor.
    + constructor; [done|].
      assert (compareFn y x <= 0) as Hyx.
      { destruct (compareFn_total x y); [lia|done]. }
      destruct Hy as [|z l Hyz]; simpl; [by constructor|].
      by destruct (compareFn x z <=? 0); constructor.
Qed.

Lemma sort_Sorted l : Sorted (λ a b, compareFn a b <= 0) (sort compareFn l).
Proof.
  induction l as [|x l IH]; simpl; [constructor|].
  by apply insertSorted_Sorted.
Qed.

Hypothesis compareFn_trans :
  ∀ a b c, compareFn a b <= 0 → compareFn b c <= 0 → compareFn a c <= 0.

Lemma sort_StronglySorted l :
  StronglySorted (λ a b, compareFn a b <= 0) (sort compareFn l).
Proof.
  apply Sorted_StronglySorted; [|apply sort_Sorted].
  intros a b c. apply compareFn_trans.
Qed.

End sort_facts.

(** ** The validation monad and the callback *)

Ltac unfold_M :=
  unfold mbind, M_bind, mret, M_ret, throw, allIds_has, allIds_add in *.

(** The callback written with the two children fields named. *)
Lemma processItem_eq levelName item idsInLevel :
  processItem levelName item idsInLevel =
  let itemId := trimOrEmpty (r_id item) in
  let itemName := trimOrEmpty (r_name item) in
  if negb (Js.truthyString itemId) || negb (Js.testIdPattern itemId)
  then throw (InvalidId levelName)
  else if negb (Js.truthyString itemName)
  then throw (EmptyName levelName)
  else
    taken ← allIds_has itemId;
    if taken || has idsInLevel itemId
    then throw (DuplicateId levelName itemId)
    else
      _ ← allIds_add itemId;
      subVariations ← subVariationsField levelName item;
      executionTypes ← executionTypesField levelName item;
      mret ({| n_id := itemId;
               n_name := itemName;
               n_imageUrl := orUndefined (r_imageUrl item);
               n_isUnilateral := isTrueString (r_isUnilateral item);
               n_subVariations := subVariations;
               n_executionTypes := executionTypes |}, add itemId idsInLevel).
Proof.
  destruct item as [i nm img u [sv|] [et|]], levelName; reflexivity.
Qed.

(** What a successful run of the callback says about its input, its output
    and the two sets. *)
Lemma processItem_Ok levelName item idsInLevel s n idsInLevel' s' :
  processItem levelName item idsInLevel s = Ok ((n, idsInLevel'), s') ↔
  let itemId := trimOrEmpty (r_id item) in
  let itemName := trimOrEmpty (r_name item) in
  Js.truthyString itemId = true ∧ Js.testIdPattern itemId = true ∧
  Js.truthyString itemName = true ∧
  has s itemId = false ∧ has idsInLevel itemId = false ∧
  idsInLevel' = add itemId idsInLevel ∧
  ∃ subVariations s1 executionTypes,
    subVariationsField levelName item (add itemId s) = Ok (subVariations, s1) ∧
    executionTypesField levelName item s1 = Ok (executionTypes, s') ∧
    n = {| n_id := itemId;
           n_name := itemName;
           n_imageUrl := orUndefined (r_imageUrl item);
           n_isUnilateral := isTrueString (r_isUnilateral item);
           n_subVariations := subVariations;
           n_executionTypes := executionTypes |}.
Proof.
  rewrite processItem_eq. cbn zeta. unfold_M.
  destruct (Js.truthyString (trimOrEmpty (r_id item))); simpl;
    [|split; [done|by intros (?&?)]].
  destruct (Js.testIdPattern (trimOrEmpty (r_id item))); simpl;
    [|split; [done|by intros (?&?&?)]].
  destruct (Js.truthyString (trimOrEmpty (r_name item))); simpl;
    [|split; [done|by intros (?&?&?&?)]].
  destruct (has s (trimOrEmpty (r_id item))); simpl;
    [split; [done|by intros (?&?&?&?&?)]|].
  destruct (has idsInLevel (trimOrEmpty (r_id item))); simpl;
    [split; [done|by intros (?&?&?&?&?&?)]|].
  destruct (subVariationsField levelName item _) as [[sv s1]|e];
    [|split; [done|by intros (_&_&_&_&_&_&?&?&?&?&?)]].
  destruct (executionTypesField levelName item s1) as [[et s2]|e] eqn:Het.
  - split.
    + intros ?. simplify_eq. do 6 (split; [done|]). by exists sv, s1, et.
    + intros (_&_&_&_&_&->&sv'&s1'&et'&?&Het'&->). simplify_eq.
      rewrite Het in Het'. by simplify_eq.
  - split; [done|]. intros (_&_&_&_&_&_&sv'&s1'&et'&?&Het'&_). simplify_eq.
    by rewrite Het in Het'.
Qed.

(** One step of [mapItems]. *)
Lemma mapItems_cons_Ok callback item rest idsInLevel s out s' :
  mapItems callback (item :: rest) idsInLevel s = Ok (out, s') ↔
  ∃ n idsInLevel1 s1 processed,
    callback item idsInLevel s = Ok ((n, idsInLevel1), s1) ∧
    mapItems callback rest idsInLevel1 s1 = Ok (processed, s') ∧
    out = n :: processed.
Proof.
  simpl. unfold_M.
  destruct (callback item idsInLevel s) as [[[n ids1] s1]|e];
    [|split; [done|by intros (?&?&?&?&?&?)]].
  fold (mapItems callback).
  destruct (mapItems callback rest ids1 s1) as [[processed s2]|e] eqn:Hrest.
  - split.
    + intros ?. simplify_eq. by exists n, ids1, s1, processed.
    + intros (?&?&?&?&?&Hrest'&->). simplify_eq.
      rewrite Hrest in Hrest'. by simplify_eq.
  - split; [done|]. intros (?&?&?&?&?&Hrest'&_). simplify_eq.
    by rewrite Hrest in Hrest'.
Qed.

Lemma mapItems_image callback (g : RawNode → Node) :
  (∀ item ids s n ids' s',
      callback item ids s = Ok ((n, ids'), s') → n = g item) →
  ∀ l ids s out s', mapItems callback l ids s = Ok (out, s') → out = g <$> l.
Proof.
  intros Hcb. induction l as [|item rest IH]; intros ids s out s'.
  - by intros [= <- <-].
  - intros (n & ids1 & s1 & processed & Hn & Hrest & ->)%mapItems_cons_Ok.
    simpl. f_equal; eauto.
Qed.

Lemma processItem_normalForm levelName item ids s n ids' s' :
  processItem levelName item ids s = Ok ((n, ids'), s') →
  n = normalForm levelName item.
Proof.
  assert (∀ item ids s n ids' s',
    processItem TipoEjecucion item ids s = Ok ((n, ids'), s') →
    n = normalForm TipoEjecucion item) as Het.
  { clear. intros [i nm img u sv et] ids s n ids' s'.
    intros (_ & _ & _ & _ & _ & _ & sv' & s1 & et' & Hsv & Hetf & ->)%processItem_Ok.
    simpl in *. unfold_M. by simplify_eq. }
  assert (∀ item ids s n ids' s',
    processItem SubVariacion item ids s = Ok ((n, ids'), s') →
    n = normalForm SubVariacion item) as Hsv.
  { clear -Het. intros [i nm img u sv et] ids s n ids' s'.
    intros (_ & _ & _ & _ & _ & _ & sv' & s1 & et' & Hsv & Hetf & ->)%processItem_Ok.
    unfold subVariationsField, executionTypesField in *. simpl in *. unfold_M.
    simplify_eq. f_equal. destruct et as [l|]; [|by simplify_eq].
    destruct (mapItems _ l ∅ _) as [[processed s2]|] eqn:Hl; simplify_eq.
    by rewrite (mapItems_image _ _ Het _ _ _ _ _ Hl). }
  destruct levelName; [|by eauto..].
  clear Het. revert item ids s n ids' s'.
  intros [i nm img u sv et] ids s n ids' s'.
  intros (_ & _ & _ & _ & _ & _ & sv' & s1 & et' & Hsvf & Hetf & ->)%processItem_Ok.
  unfold subVariationsField, executionTypesField in *. simpl in *. unfold_M.
  simplify_eq. f_equal. destruct sv as [l|]; [|by simplify_eq].
  destruct (mapItems _ l ∅ _) as [[processed s2]|] eqn:Hl; simplify_eq.
  by rewrite (mapItems_image _ _ Hsv _ _ _ _ _ Hl).
Qed.

Lemma processVariations_normalForm levelData levelName s out s' :
  processVariations levelData levelName s = Ok (out, s') →
  out = normalForm levelName <$> default [] levelData.
Proof.
  destruct levelData as [l|]; simpl.
  - apply mapItems_image. intros ??????. apply processItem_normalForm.
  - by intros [= <- <-].
Qed.



(** ** Normalizing a normalized tree again *)





(** ** Errors thrown by the callback *)

Lemma testIdPattern_truthy s : Js.testIdPattern s = true → Js.truthyString s = true.
Proof. by destruct s. Qed.

Lemma processItem_InvalidId levelName item ids s :
  Js.testIdPattern (trimOrEmpty (r_id item)) = false →
  processItem levelName item ids s = Err (InvalidId levelName).
Proof.
  intros Hpat. rewrite processItem_eq. cbn zeta. rewrite Hpat.
  by rewrite orb_true_r.
Qed.

Lemma processItem_EmptyName levelName item ids s :
  Js.testIdPattern (trimOrEmpty (r_id item)) = true →
  trimOrEmpty (r_name item) = "" →
  processItem levelName item ids s = Err (EmptyName levelName).
Proof.
  intros Hpat Hname. rewrite processItem_eq. cbn zeta.
  by rewrite Hpat, (testIdPattern_truthy _ Hpat), Hname.
Qed.

(** An exception thrown by the callback on an item ends the [map], whatever
    follows the item. *)
Lemma mapItems_app_Err callback pre item post ids s outs s1 e :
  mapItems callback pre ids s = Ok (outs, s1) →
  (∀ ids' s', callback item ids' s' = Err e) →
  mapItems callback (pre ++ item :: post) ids s = Err e.
Proof.
  intros Hpre Hitem. revert ids s outs Hpre.
  induction pre as [|x pre IH]; intros ids s outs Hpre.
  - simpl. unfold_M. by rewrite Hitem.
  - apply mapItems_cons_Ok in Hpre
      as (n & ids1 & s2 & processed & Hx & Hrest & ->).
    change ((x :: pre) ++ item :: post) with (x :: (pre ++ item :: post)).
    cbn [mapItems]. unfold_M. rewrite Hx. fold (mapItems callback).
    by rewrite (IH _ _ _ Hrest).
Qed.

(** ** The set [allIds] *)

Lemma elem_of_add x y (s : IdSet) : x ∈ add y s ↔ x ∈ s ∨ x = y.
Proof. unfold add. rewrite elem_of_union, elem_of_singleton. tauto. Qed.



Lemma elem_of_foldl_adds {A} (f : A → IdSet → IdSet) (P : A → string → Prop) :
  (∀ a s x, x ∈ f a s ↔ x ∈ s ∨ P a x) →
  ∀ l s x, x ∈ foldl (λ s a, f a s) s l ↔ x ∈ s ∨ ∃ a, a ∈ l ∧ P a x.
Proof.
  intros Hf. induction l as [|a l IH]; intros s x; cbn [foldl].
  - split; [by left|]. by intros [?|(a & ?%elem_of_nil & _)].
  - rewrite IH, Hf. split.
    + intros [[?|?]|(b & ? & ?)]; [by left|right..].
      * exists a. split; [apply elem_of_cons; by left|done].
      * exists b. split; [apply elem_of_cons; by right|done].
    + intros [?|(b & [->|?]%elem_of_cons & ?)]; eauto.
Qed.

Lemma elem_of_forEachOpt {A} (f : A → IdSet → IdSet) (g : A → list string) :
  (∀ a s x, x ∈ f a s ↔ x ∈ s ∨ x ∈ g a) →
  ∀ l s x, x ∈ forEachOpt f l s ↔ x ∈ s ∨ x ∈ default [] l ≫= g.
Proof.
  intros Hf [l|] s x; simpl.
  - rewrite (elem_of_foldl_adds f (λ a x, x ∈ g a) Hf), list_elem_of_bind.
    split; (intros [?|(a & ? & ?)]; [by left|right; eauto]).
  - change ([] ≫= g) with (@nil string). rewrite elem_of_nil. tauto.
Qed.

Lemma elem_of_addSubVariation sv s x :
  x ∈ addSubVariation sv s ↔ x ∈ s ∨ x ∈ subVariationIds sv.
Proof.
  unfold addSubVariation, subVariationIds.
  rewrite (elem_of_forEachOpt addExecutionType (λ et, [n_id et])).
  - rewrite elem_of_add, elem_of_cons, list_elem_of_bind, list_elem_of_fmap.
    split; [intros [[?|?]|(et & ?%list_elem_of_singleton & ?)]|]; [by eauto..|].
    intros [?|[?|(et & ? & ?)]]; [by eauto..|].
    right. exists et. by rewrite list_elem_of_singleton.
  - intros et s' y. unfold addExecutionType.
    by rewrite elem_of_add, list_elem_of_singleton.
Qed.

Lemma elem_of_addVariation v s x :
  x ∈ addVariation v s ↔ x ∈ s ∨ x ∈ variationIds v.
Proof.
  unfold addVariation, variationIds.
  rewrite (elem_of_forEachOpt _ _ elem_of_addSubVariation).
  rewrite elem_of_add, elem_of_cons. tauto.
Qed.

Lemma elem_of_addItem editMode originalBaseId item s x :
  x ∈ addItem editMode originalBaseId item s ↔
  x ∈ s ∨ ((Js.truthy editMode = false ∨ originalBaseId ≠ Some (e_id item))
           ∧ x ∈ exerciseIds item).
Proof.
  unfold addItem, Js.strictEq, exerciseIds.
  destruct (Js.truthy editMode); simpl.
  - case_bool_decide as Heq; simpl.
    + split; [by left|]. intros [?|[[?|?] _]]; [done|done|congruence].
    + rewrite (elem_of_forEachOpt _ _ elem_of_addVariation).
      rewrite elem_of_add, elem_of_cons.
      split; [intros [[?|?]|?]|intros [?|[_ [?|?]]]]; eauto 6.
  - rewrite (elem_of_forEachOpt _ _ elem_of_addVariation).
    rewrite elem_of_add, elem_of_cons. split.
    + intros [[?|?]|?]; eauto 6.
    + intros [?|[_ [?|?]]]; eauto.
Qed.



(** ** Arrays and the merge step *)

Lemma findIndex_Some {A} (p : A → bool) l i :
  findIndex p l = Some i →
  ∃ l1 y l2, l = l1 ++ y :: l2 ∧ length l1 = i ∧ p y = true
             ∧ Forall (λ x, p x = false) l1.
Proof.
  revert i. induction l as [|x l IH]; intros i; simpl; [done|].
  destruct (p x) eqn:Hx.
  - intros [= <-]. by exists [], x, l.
  - destruct (findIndex p l) as [j|]; [|done]. intros [= <-].
    destruct (IH j eq_refl) as (l1 & y & l2 & -> & <- & Hy & Hl1).
    exists (x :: l1), y, l2. by repeat constructor.
Qed.

Lemma findIndex_None {A} (p : A → bool) l :
  findIndex p l = None ↔ Forall (λ x, p x = false) l.
Proof.
  induction l as [|x l IH]; simpl; [by split; [constructor|]|].
  rewrite Forall_cons. destruct (p x); [by split; [|intros [? _]]|].
  destruct (findIndex p l); simpl; [|tauto].
  split; [done|]. intros [_ Hl]. by apply IH in Hl.
Qed.

Lemma allExercises_cons g (doc : Document) :
  allExercises (g :: doc) = g_items g ++ allExercises doc.
Proof. done. Qed.

Lemma replaceOriginal_Some originalBaseId ex (doc doc' : Document) :
  replaceOriginal originalBaseId ex doc = Some doc' →
  ∃ l1 old l2,
    allExercises doc = l1 ++ old :: l2 ∧ e_id old = originalBaseId
    ∧ Forall (λ e, e_id e ≠ originalBaseId) l1
    ∧ allExercises doc' = l1 ++ ex :: l2.
Proof.
  revert doc'. induction doc as [|g rest IH]; intros doc'; simpl; [done|].
  destruct (findIndex _ (g_items g)) as [i|] eqn:Hfind.
  - intros [= <-].
    apply findIndex_Some in Hfind as (l1 & old & l2 & Hitems & <- & Hold & Hl1).
    exists l1, old, (l2 ++ allExercises rest).
    rewrite !allExercises_cons, Hitems. cbn [g_items].
    rewrite insert_app_r_alt, Nat.sub_diag by done. cbn [insert list_insert].
    rewrite <-!app_assoc. split; [done|].
    split; [by apply bool_decide_eq_true in Hold|].
    split; [|done]. eapply Forall_impl; [done|].
    intros e. by rewrite bool_decide_eq_false.
  - apply findIndex_None in Hfind.
    destruct (replaceOriginal _ ex rest) as [rest'|]; [|done].
    intros [= <-].
    destruct (IH rest' eq_refl) as (l1 & old & l2 & Hrest & Hold & Hl1 & Hrest').
    exists (g_items g ++ l1), old, l2.
    rewrite !allExercises_cons, Hrest, Hrest', <-!app_assoc.
    repeat split; [done|]. apply Forall_app. split; [|done].
    eapply Forall_impl; [done|]. intros e. by rewrite bool_decide_eq_false.
Qed.

Lemma replaceOriginal_None originalBaseId ex (doc : Document) :
  replaceOriginal originalBaseId ex doc = None ↔
  Forall (λ e, e_id e ≠ originalBaseId) (allExercises doc).
Proof.
  induction doc as [|g rest IH]; cbn [replaceOriginal];
    [by split; [constructor|]|].
  rewrite allExercises_cons, Forall_app.
  destruct (findIndex _ (g_items g)) as [i|] eqn:Hfind.
  - apply findIndex_Some in Hfind as (l1 & old & l2 & -> & _ & Hold & _).
    apply bool_decide_eq_true in Hold. split; [done|].
    intros [[_ [? _]%Forall_cons]%Forall_app _]. done.
  - apply findIndex_None in Hfind.
    destruct (replaceOriginal _ ex rest); simpl.
    + split; [done|]. intros [_ Hrest]. by apply IH in Hrest.
    + split; [|done]. intros _. split; [|by apply IH].
      eapply Forall_impl; [done|]. intros e. by rewrite bool_decide_eq_false.
Qed.

(** Pushing to a group whose name matches no group of the document. *)
Lemma pushToGroup_new group ex (doc : Document) :
  Forall (λ g, Js.toLowerCase (g_group g) ≠ Js.toLowerCase group) doc →
  pushToGroup group ex doc = doc ++ [{| g_group := group; g_items := [ex] |}].
Proof.
  intros Hnone. unfold pushToGroup.
  assert (findIndex (λ g, bool_decide (Js.toLowerCase (g_group g)
                                       = Js.toLowerCase group)) doc = None)
    as ->.
  { apply findIndex_None. eapply Forall_impl; [done|].
    intros g. by rewrite bool_decide_eq_false. }
  replace (length doc) with (length doc + 0)%nat by lia.
  by rewrite alter_app_r.
Qed.

Section merge_facts.
Variable localeCompare : string → string → Z.

Lemma allExercises_sortAll (doc : Document) :
  allExercises (sortAll localeCompare doc) ≡ₚ allExercises doc.
Proof.
  unfold sortAll. trans (allExercises (sort (byGroup localeCompare) doc)).
  - induction (sort (byGroup localeCompare) doc) as [|g l IH]; [done|].
    rewrite fmap_cons, !allExercises_cons. cbn [g_items].
    by rewrite sort_Permutation, IH.
  - unfold allExercises. by rewrite sort_Permutation.
Qed.


Hypothesis localeCompare_total :
  ∀ a b, localeCompare a b <= 0 ∨ localeCompare b a <= 0.
Hypothesis localeCompare_trans :
  ∀ a b c, localeCompare a b <= 0 → localeCompare b c <= 0 →
           localeCompare a c <= 0.

Lemma sortAll_groups_sorted (doc : Document) :
  StronglySorted (λ a b, localeCompare (g_group a) (g_group b) <= 0)
                 (sortAll localeCompare doc).
Proof.
  unfold sortAll.
  apply (StronglySorted_fmap _
           (λ a b, localeCompare (g_group a) (g_group b) <= 0)); [done|].
  apply (sort_StronglySorted (byGroup localeCompare)); unfold byGroup; eauto.
Qed.

Lemma sortAll_items_sorted (doc : Document) :
  Forall (λ g, StronglySorted (λ a b, localeCompare (e_name a) (e_name b) <= 0)
                              (g_items g))
         (sortAll localeCompare doc).
Proof.
  unfold sortAll. apply Forall_fmap, Forall_forall. intros g _. simpl.
  apply (sort_StronglySorted (byName localeCompare)); unfold byName; eauto.
Qed.

End merge_facts.

(** ** The handler *)

Lemma basicValidation_Some req g bid bn tok :
  basicValidation req = Some (g, bid, bn, tok) →
  group req = Some g ∧ baseId req = Some bid ∧ baseName req = Some bn
  ∧ fileSha req = Some tok
  ∧ Js.truthyString g = true ∧ Js.truthyString bn = true
  ∧ Js.testIdPattern bid = true.
Proof.
  unfold basicValidation.
  destruct (group req) as [g'|]; [|done].
  destruct (baseId req) as [i|]; [|done].
  destruct (baseName req) as [n|]; [|done].
  destruct (fileSha req) as [t|]; [|done].
  destruct (Js.truthyString g') eqn:Hg, (Js.truthyString i),
    (Js.truthyString n) eqn:Hn, (Js.testIdPattern i) eqn:Hi,
    (Js.truthyString t); simpl; try done.
  by intros [= <- <- <- <-].
Qed.

Section handler_facts.
Variable localeCompare : string → string → Z.
Variable blobSha : Document → string.

Lemma commit_applies message newContent st f :
  remote st = Some f →
  createOrUpdateFileContents blobSha message newContent (sha f) st
  = Some {| remote := Some {| content := newContent;
                              sha := blobSha newContent |};
            commits := message :: commits st |}.
Proof.
  intros Hf. unfold createOrUpdateFileContents. rewrite Hf.
  by rewrite bool_decide_eq_true_2.
Qed.

(** The handler once the request is through every check. *)
Lemma saveExercise_validated interleaved req st f group baseId baseName token
    processedVariations s' :
  basicValidation req = Some (group, baseId, baseName, token) →
  remote st = Some f →
  sha f = token →
  has (collectAllIds (editMode req) (originalBaseId req) (content f)) baseId
  = false →
  processVariations (variations req) Variacion
    (collectAllIds (editMode req) (originalBaseId req) (content f))
  = Ok (processedVariations, s') →
  saveExercise localeCompare blobSha interleaved req st =
  let exerciseObject :=
    exerciseObject localeCompare baseId baseName processedVariations in
  if isEdit req
  then
    match replaceOriginal (default "" (originalBaseId req)) exerciseObject
                          (content f) with
    | Some data =>
        match createOrUpdateFileContents blobSha (MsgUpdate baseName)
                (sortAll localeCompare data) token (interleaved st) with
        | Some st' => (Status200 (Updated baseName), st')
        | None => (Status500, interleaved st)
        end
    | None => (Status500, st)
    end
  else
    match createOrUpdateFileContents blobSha (MsgAdd baseName)
            (sortAll localeCompare (pushToGroup group exerciseObject (content f)))
            token (interleaved st) with
    | Some st' => (Status200 (Added baseName group), st')
    | None => (Status500, interleaved st)
    end.
Proof.
  intros Hbasic Hf Hsha Hbase Hpv.
  unfold saveExercise, saveExerciseTry, getExerciseDataFromGithub.
  rewrite Hbasic, Hf, Hsha, bool_decide_eq_true_2 by done.
  cbn [negb]. rewrite Hbase, Hpv. cbn zeta.
  destruct (isEdit req).
  - destruct (replaceOriginal _ _ _); [|done].
    by destruct (createOrUpdateFileContents _ _ _ _ _).
  - by destruct (createOrUpdateFileContents _ _ _ _ _).
Qed.

(** C1 (amended).  A write request whose [fileSha] is not the token the
    store reports makes no commit: the store is left as it was.  The response
    is the Conflict (409) when the request passes the basic validation of its
    fields, which the handler runs first; a request that fails it gets the
    400 of the basic validation instead. *)
Theorem stale_token_conflict interleaved req st f :
  remote st = Some f →
  fileSha req ≠ Some (sha f) →
  (saveExercise localeCompare blobSha interleaved req st).2 = st
  ∧ (is_Some (basicValidation req) →
     (saveExercise localeCompare blobSha interleaved req st).1 = Status409)
  ∧ (basicValidation req = None →
     (saveExercise localeCompare blobSha interleaved req st).1
     = Status400 IncompleteData).
Proof.
  intros Hf Hsha. unfold saveExercise.
  destruct (basicValidation req) as [[[[g bid] bn] tok]|] eqn:Hbasic.
  - apply basicValidation_Some in Hbasic as (_ & _ & _ & Htok & _).
    unfold saveExerciseTry, getExerciseDataFromGithub. rewrite Hf.
    rewrite bool_decide_eq_false_2 by congruence. cbn [negb].
    split; [done|]. split; [done|]. by intros [=].
  - split; [done|]. split; [by intros [? ?]|done].
Qed.

(** C2.  A validation failure anywhere aborts the submission with a 400
    and without a store write: at the base level (a missing field or an
    invalid base id, a base id that is taken) and at any nested level, where
    the error thrown by [processVariations] is the one reported. *)
Theorem validation_failure_aborts interleaved req st :
  (basicValidation req = None →
   saveExercise localeCompare blobSha interleaved req st
   = (Status400 IncompleteData, st))
  ∧ (∀ f group baseId baseName token,
       basicValidation req = Some (group, baseId, baseName, token) →
       remote st = Some f →
       sha f = token →
       let allIds :=
         collectAllIds (editMode req) (originalBaseId req) (content f) in
       (has allIds baseId = true →
        saveExercise localeCompare blobSha interleaved req st
        = (Status400 (BaseIdExists baseId), st))
       ∧ (∀ e, has allIds baseId = false →
               processVariations (variations req) Variacion allIds = Err e →
               saveExercise localeCompare blobSha interleaved req st
               = (Status400 (ValidationFailed e), st))).
Proof.
  split.
  - intros Hbasic. unfold saveExercise. by rewrite Hbasic.
  - intros f g bid bn tok Hbasic Hf Hsha allIds.
    unfold saveExercise, saveExerciseTry, getExerciseDataFromGithub.
    rewrite Hbasic, Hf, Hsha, bool_decide_eq_true_2 by done. cbn [negb].
    fold allIds. split.
    + by intros ->.
    + intros e -> Hpv. by rewrite Hpv.
Qed.

End handler_facts.

(** C3 (amended).  Membership in the set of taken identifiers: an
    identifier is taken exactly when it is one of the identifiers, at any of
    the four levels, of an exercise of the document that is counted.  Every
    exercise is counted when [editMode] is not truthy; during an update the
    exercise whose id is [originalBaseId] is left out, and with it all the
    identifiers nested inside it. *)
Theorem update_excludes_edited_exercise editMode originalBaseId (doc : Document) x :
  x ∈ collectAllIds editMode originalBaseId doc ↔
  ∃ item, item ∈ allExercises doc
          ∧ (Js.truthy editMode = false ∨ originalBaseId ≠ Some (e_id item))
          ∧ x ∈ exerciseIds item.
Proof.
  unfold collectAllIds, allExercises.
  rewrite (elem_of_foldl_adds
             (λ g s, foldl (λ s item, addItem editMode originalBaseId item s)
                           s (g_items g))
             (λ g x, ∃ item, item ∈ g_items g
                ∧ (Js.truthy editMode = false
                   ∨ originalBaseId ≠ Some (e_id item))
                ∧ x ∈ exerciseIds item)).
  - split.
    + intros [?%elem_of_empty|(g & Hg & item & Hitem & Hc & Hx)]; [done|].
      exists item. split; [|done]. apply list_elem_of_bind. eauto.
    + intros (item & (g & Hitem & Hg)%list_elem_of_bind & Hc & Hx).
      right. eauto 6.
  - intros g s y.
    apply (elem_of_foldl_adds (addItem editMode originalBaseId)
             (λ item x, (Js.truthy editMode = false
                         ∨ originalBaseId ≠ Some (e_id item))
                        ∧ x ∈ exerciseIds item)).
    intros item s' z. apply elem_of_addItem.
Qed.

(** C1, counterexample to the claim as stated: the request presents the
    token T0 while the store reports T1, and its base id is not a valid
    identifier.  The response is the 400 of the basic validation, not the
    Conflict. *)
Lemma stale_token_bad_base_id_is_400 :
  let req := addRequest "T0" "Chest" "Bench Press" "Bench Press" None in
  let st := storeAt "T1" [] in
  tokenOf st = Some "T1" ∧ fileSha req = Some "T0"
  ∧ ∀ localeCompare blobSha interleaved,
      saveExercise localeCompare blobSha interleaved req st
      = (Status400 IncompleteData, st).
Proof. by split; [|split]. Qed.

(** C1, witness: a well-formed request with the stale token T0 against a
    store at T1. *)
Lemma stale_token_conflict_witness :
  let req := addRequest "T0" "Chest" "bench-press" "Bench Press" None in
  let f := {| content := []; sha := "T1" |} in
  let st := storeAt "T1" [] in
  remote st = Some f ∧ fileSha req ≠ Some (sha f)
  ∧ is_Some (basicValidation req)
  ∧ saveExercise caseFoldCompare sampleSha id req st = (Status409, st).
Proof.
  intros req f st.
  assert (remote st = Some f) as Hf by reflexivity.
  assert (fileSha req ≠ Some (sha f)) as Hsha by discriminate.
  assert (is_Some (basicValidation req)) as Hbasic by (eexists; reflexivity).
  destruct (stale_token_conflict caseFoldCompare sampleSha id req st f Hf Hsha)
    as (Hst & Hresp & _).
  split; [exact Hf|]. split; [exact Hsha|]. split; [exact Hbasic|].
  specialize (Hresp Hbasic).
  destruct (saveExercise caseFoldCompare sampleSha id req st) as [r st'].
  simpl in *. by rewrite Hst, Hresp.
Defined.

(** C2, witness: the variation id [Incline!] fails with InvalidId and the
    store is not written. *)
Lemma validation_failure_aborts_witness :
  let req := addRequest "T1" "Chest" "bench-press" "Bench Press"
               (Some [rawNode "Incline!" "Incline"]) in
  let st := storeAt "T1" [] in
  basicValidation req = Some ("Chest", "bench-press", "Bench Press", "T1")
  ∧ processVariations (variations req) Variacion
      (collectAllIds (editMode req) (originalBaseId req) [])
    = Err (InvalidId Variacion)
  ∧ saveExercise caseFoldCompare sampleSha id req st
    = (Status400 (ValidationFailed (InvalidId Variacion)), st).
Proof.
  intros req st.
  assert (basicValidation req
          = Some ("Chest", "bench-press", "Bench Press", "T1")) as Hbasic
    by reflexivity.
  assert (processVariations (variations req) Variacion
            (collectAllIds (editMode req) (originalBaseId req) [])
          = Err (InvalidId Variacion)) as Hpv by reflexivity.
  split; [exact Hbasic|]. split; [exact Hpv|].
  apply (proj2 (validation_failure_aborts caseFoldCompare sampleSha id req st)
           {| content := []; sha := "T1" |} _ _ _ _ Hbasic eq_refl eq_refl);
    [reflexivity|exact Hpv].
Defined.

(** C3, counterexample to the claim as stated: when the exercise [squat]
    is edited, the id [front-squat] of its variation is an identifier of the
    document other than the one being edited, and it does not count as
    taken: the update that submits it again is accepted. *)
Lemma nested_ids_of_edited_exercise_not_taken :
  let taken := collectAllIds (Some "true") (Some "squat") legsDocument in
  let req := updateRequest "T1" "squat" "Legs" "squat" "Squat"
               (Some [rawNode "front-squat" "Front squat"]) in
  (∃ item, item ∈ allExercises legsDocument ∧ "front-squat" ∈ exerciseIds item)
  ∧ "front-squat" ≠ "squat"
  ∧ has taken "front-squat" = false
  ∧ ∀ localeCompare blobSha,
      (saveExercise localeCompare blobSha id req (storeAt "T1" legsDocument)).1
      = Status200 (Updated "Squat").
Proof.
  split; [|split; [done|split]].
  - eexists. split; [apply list_elem_of_here|]. vm_compute.
    apply list_elem_of_further, list_elem_of_here.
  - by vm_compute.
  - intros localeCompare blobSha. by vm_compute.
Qed.



Section validator_claims.
Variable localeCompare : string → string → Z.
Variable blobSha : Document → string.

(** C5 (amended).  At the variation, sub-variation and execution-type
    levels the validator trims id and name before any check: a successful
    run yields, at every level, the normal form of the submitted nodes, whose
    id and name are the trimmed ones; and a node that is reached, whose
    trimmed id is well formed and whose trimmed name is empty, fails with
    EmptyName (the id is checked first).  At the base level nothing is
    trimmed: the id and name that pass the basic validation are the submitted
    strings, and they are the id and name of the exercise that is stored. *)
Theorem nested_nodes_trimmed levelName :
  (∀ levelData s out s',
     processVariations levelData levelName s = Ok (out, s') →
     out = normalForm levelName <$> default [] levelData)
  ∧ (∀ item, n_id (normalForm levelName item) = trimOrEmpty (r_id item)
             ∧ n_name (normalForm levelName item) = trimOrEmpty (r_name item))
  ∧ (∀ pre item post s outs s1,
       processVariations (Some pre) levelName s = Ok (outs, s1) →
       Js.testIdPattern (trimOrEmpty (r_id item)) = true →
       trimOrEmpty (r_name item) = "" →
       processVariations (Some (pre ++ item :: post)) levelName s
       = Err (EmptyName levelName))
  ∧ (∀ req g bid bn tok processedVariations,
       basicValidation req = Some (g, bid, bn, tok) →
       baseId req = Some bid ∧ baseName req = Some bn
       ∧ e_id (exerciseObject localeCompare bid bn processedVariations) = bid
       ∧ e_name (exerciseObject localeCompare bid bn processedVariations) = bn).
Proof.
  split; [|split; [|split]].
  - intros levelData s out s'. apply processVariations_normalForm.
  - by intros [i nm img u sv et].
  - intros pre item post s outs s1 Hpre Hid Hname. cbn [processVariations] in *.
    eapply mapItems_app_Err; [done|].
    intros ids' s2. by apply processItem_EmptyName.
  - intros req g bid bn tok pv (_ & Hbid & Hbn & _)%basicValidation_Some.
    done.
Qed.

(** C6 (amended).  The characters outside [[a-z0-9-]], among them the
    upper-case letters, the underscore and the space, make an id invalid
    where they are left after trimming: at a nested level a node that is
    reached and whose trimmed id holds such a character fails with InvalidId;
    upper-case letters and underscores are never trimmed away, white space is
    when it leads or trails.  At the base level the id is not trimmed, and a
    base id that holds such a character anywhere is rejected with the 400 of
    the basic validation, the store being left as it was. *)
Theorem invalid_id_rejected levelName :
  (∀ c, isUpperCase c = true ∨ c = "_"%char ∨ c = " "%char →
        Js.isIdChar c = false)
  ∧ (∀ id c, c ∈ chars id → isUpperCase c = true ∨ c = "_"%char →
             c ∈ chars (Js.trim id))
  ∧ (∀ pre item post s outs s1 id c,
       processVariations (Some pre) levelName s = Ok (outs, s1) →
       r_id item = Some id →
       c ∈ chars (Js.trim id) →
       Js.isIdChar c = false →
       processVariations (Some (pre ++ item :: post)) levelName s
       = Err (InvalidId levelName))
  ∧ (∀ interleaved req st id c,
       baseId req = Some id →
       c ∈ chars id →
       Js.isIdChar c = false →
       saveExercise localeCompare blobSha interleaved req st
       = (Status400 IncompleteData, st)).
Proof.
  assert (∀ c, isUpperCase c = true ∨ c = "_"%char ∨ c = " "%char →
               Js.isIdChar c = false) as Hclass.
  { intros c [Hc|[->| ->]]; [|done..].
    unfold isUpperCase, Js.isIdChar in *.
    apply andb_prop in Hc as [?%N.leb_le ?%N.leb_le].
    apply orb_false_intro; [apply orb_false_intro|].
    - apply andb_false_intro1, N.leb_gt. lia.
    - apply andb_false_intro2, N.leb_gt. lia.
    - apply N.eqb_neq. lia. }
  split; [done|split; [|split]].
  - intros id c Hin Hc. apply trim_keeps; [done|].
    destruct Hc as [Hc| ->]; [|done].
    unfold isUpperCase, Js.isWhiteSpace in *.
    apply andb_prop in Hc as [?%N.leb_le ?%N.leb_le].
    apply orb_false_intro; [apply orb_false_intro|].
    + apply andb_false_intro2, N.leb_gt. lia.
    + apply N.eqb_neq. lia.
    + apply N.eqb_neq. lia.
  - intros pre item post s outs s1 id c Hpre Hid Hin Hc.
    cbn [processVariations] in *.
    eapply mapItems_app_Err; [done|].
    intros ids' s2. apply processItem_InvalidId.
    rewrite Hid. cbn [trimOrEmpty].
    destruct (Js.truthyString id); [|done].
    by eapply testIdPattern_chars.
  - intros interleaved req st id c Hid Hin Hc.
    unfold saveExercise.
    destruct (basicValidation req) as [[[[g bid] bn] tok]|] eqn:Hbasic; [|done].
    apply basicValidation_Some in Hbasic as (_ & Hbid & _ & _ & _ & _ & Hpat).
    rewrite Hid in Hbid. injection Hbid as <-.
    by rewrite (testIdPattern_chars _ _ Hin Hc) in Hpat.
Qed.

End validator_claims.

(** C5, counterexample to the claim as stated.  At the base level a name
    of two spaces, empty after trimming, is accepted and stored as it is;
    at a nested level a node with an empty name and a malformed id fails with
    InvalidId, not with EmptyName. *)
Lemma base_name_not_trimmed :
  let req := addRequest "T1" "Chest" "bench-press" "  " None in
  let bad := {| r_id := Some "Bad Id"; r_name := Some "  ";
                r_imageUrl := None; r_isUnilateral := FlagUndefined;
                r_subVariations := None; r_executionTypes := None |} in
  Js.trim "  " = ""
  ∧ (∀ localeCompare blobSha,
       (saveExercise localeCompare blobSha id req (storeAt "T1" [])).1
       = Status200 (Added "  " "Chest")
       ∧ content <$> remote
           (saveExercise localeCompare blobSha id req (storeAt "T1" [])).2
         = Some [ {| g_group := "Chest";
                     g_items := [ {| e_id := "bench-press"; e_name := "  ";
                                     e_variations := None |} ] |} ])
  ∧ processVariations (Some [bad]) Variacion ∅ = Err (InvalidId Variacion).
Proof. by split; [|split]. Qed.

(** C5, witness: the second variation has a well-formed id and a name of
    spaces. *)
Lemma nested_nodes_trimmed_witness :
  let pre := [rawNode " flat " "Flat "] in
  let item := rawNode "incline" "   " in
  processVariations (Some pre) Variacion ∅
  = Ok ([leafNode "flat" "Flat"], add "flat" ∅)
  ∧ Js.testIdPattern (trimOrEmpty (r_id item)) = true
  ∧ trimOrEmpty (r_name item) = ""
  ∧ processVariations (Some (pre ++ item :: [])) Variacion ∅
    = Err (EmptyName Variacion).
Proof.
  intros pre item.
  assert (processVariations (Some pre) Variacion ∅
          = Ok ([leafNode "flat" "Flat"], add "flat" ∅)) as Hpre
    by (by vm_compute).
  split; [exact Hpre|]. split; [reflexivity|]. split; [reflexivity|].
  exact (proj1 (proj2 (proj2 (nested_nodes_trimmed caseFoldCompare Variacion)))
           pre item [] ∅ _ _ Hpre eq_refl eq_refl).
Defined.

(** C6, counterexample to the claim as stated: the id of the variation
    contains a space, at its end, and normalization succeeds. *)
Lemma trailing_space_id_accepted :
  " "%char ∈ chars "incline "
  ∧ ∃ s', processVariations (Some [rawNode "incline " "Incline"]) Variacion ∅
          = Ok ([leafNode "incline" "Incline"], s').
Proof.
  split; [|by eexists].
  apply list_elem_of_In. simpl. tauto.
Qed.

(** C6, witness: the variation id [Incline!], with its upper-case letter. *)
Lemma invalid_id_rejected_witness :
  let item := rawNode "Incline!" "Incline" in
  processVariations (Some []) Variacion ∅ = Ok ([], ∅)
  ∧ r_id item = Some "Incline!"
  ∧ "I"%char ∈ chars (Js.trim "Incline!")
  ∧ Js.isIdChar "I" = false
  ∧ processVariations (Some ([] ++ item :: [])) Variacion ∅
    = Err (InvalidId Variacion).
Proof.
  intros item.
  assert ("I"%char ∈ chars (Js.trim "Incline!")) as Hin
    by (apply list_elem_of_In; simpl; tauto).
  split; [reflexivity|]. split; [reflexivity|]. split; [exact Hin|].
  split; [reflexivity|].
  exact (proj1 (proj2 (proj2 (invalid_id_rejected caseFoldCompare sampleSha
                                Variacion)))
           [] item [] ∅ [] ∅ "Incline!" "I"%char eq_refl eq_refl Hin eq_refl).
Defined.

(** ** The merge step inside the handler *)

Lemma allExercises_app (d1 d2 : Document) :
  allExercises (d1 ++ d2) = allExercises d1 ++ allExercises d2.
Proof. unfold allExercises. apply bind_app. Qed.

(** The loop of the edit branch stops at the first item, in document order,
    whose id is [originalBaseId], and overwrites it where it stands. *)
Lemma replaceOriginal_first originalBaseId ex (doc doc' : Document) :
  replaceOriginal originalBaseId ex doc = Some doc' →
  ∃ l1 gi l2 pre old post,
    doc = l1 ++ gi :: l2
    ∧ g_items gi = pre ++ old :: post
    ∧ e_id old = originalBaseId
    ∧ Forall (λ e, e_id e ≠ originalBaseId) (allExercises l1 ++ pre)
    ∧ doc' = l1 ++ {| g_group := g_group gi;
                      g_items := pre ++ ex :: post |} :: l2.
Proof.
  revert doc'. induction doc as [|g rest IH]; intros doc'; simpl; [done|].
  destruct (findIndex _ (g_items g)) as [i|] eqn:Hfind.
  - intros [= <-].
    apply findIndex_Some in Hfind as (pre & old & post & Hitems & <- & Hold & Hpre).
    exists [], g, rest, pre, old, post.
    split; [done|]. split; [done|].
    split; [by apply bool_decide_eq_true in Hold|]. split.
    + eapply Forall_impl; [exact Hpre|].
      intros e. by rewrite bool_decide_eq_false.
    + rewrite Hitems, insert_app_r_alt, Nat.sub_diag by done. done.
  - apply findIndex_None in Hfind.
    destruct (replaceOriginal _ ex rest) as [rest'|]; [|done].
    intros [= <-].
    destruct (IH rest' eq_refl)
      as (l1 & gi & l2 & pre & old & post & -> & Hgi & Hold & Hbefore & ->).
    exists (g :: l1), gi, l2, pre, old, post.
    split; [done|]. split; [done|]. split; [done|]. split; [|done].
    rewrite allExercises_cons, <-app_assoc. apply Forall_app. split; [|done].
    eapply Forall_impl; [exact Hfind|].
    intros e. by rewrite bool_decide_eq_false.
Qed.

Lemma allExercises_pushToGroup group ex (doc : Document) :
  allExercises (pushToGroup group ex doc) ≡ₚ ex :: allExercises doc.
Proof.
  unfold pushToGroup.
  destruct (findIndex _ doc) as [i|] eqn:Hfind.
  - apply findIndex_Some in Hfind as (l1 & g & l2 & -> & <- & _ & _).
    replace (length l1) with (length l1 + 0)%nat by lia.
    rewrite alter_app_r. cbn [alter list_alter].
    rewrite !allExercises_app, !allExercises_cons. cbn [g_items].
    rewrite <-app_assoc. cbn [app].
    by rewrite <-!Permutation_middle.
  - replace (length doc) with (length doc + 0)%nat by lia.
    rewrite alter_app_r. cbn [alter list_alter].
    rewrite allExercises_app. cbn. by rewrite <-Permutation_middle, app_nil_r.
Qed.

Lemma isEdit_true req originalId :
  editMode req = Some "true" → originalBaseId req = Some originalId →
  originalId ≠ "" → isEdit req = true.
Proof.
  intros Hmode Horig Hne. unfold isEdit. rewrite Hmode, Horig.
  by destruct originalId.
Qed.


Section commit_facts.
Variable localeCompare : string → string → Z.
Variable blobSha : Document → string.

Lemma commit_applies_token message newContent token st :
  tokenOf st = Some token →
  createOrUpdateFileContents blobSha message newContent token st
  = Some {| remote := Some {| content := newContent;
                              sha := blobSha newContent |};
            commits := message :: commits st |}.
Proof.
  unfold tokenOf. destruct (remote st) as [f|] eqn:Hf; [|done].
  intros [= <-]. by apply commit_applies.
Qed.

(** A success response means that a sorted document was committed. *)
Lemma saveExercise_200 interleaved req st message st' :
  saveExercise localeCompare blobSha interleaved req st
  = (Status200 message, st') →
  ∃ data, remote st' = Some {| content := sortAll localeCompare data;
                               sha := blobSha (sortAll localeCompare data) |}.
Proof.
  unfold saveExercise, saveExerciseTry, createOrUpdateFileContents.
  destruct (basicValidation req) as [[[[g bid] bn] tok]|]; [|done].
  destruct (getExerciseDataFromGithub st) as [[doc currentSha]|]; [|done].
  destruct (negb _); [done|].
  destruct (has _ bid); [done|].
  destruct (processVariations _ _ _) as [[pv s']|e]; [|done].
  destruct (isEdit req).
  - destruct (replaceOriginal _ _ doc) as [data|]; [|done].
    destruct (remote (interleaved st)) as [f2|]; [|done].
    destruct (bool_decide _); [|done].
    intros [= <- <-]. by exists data.
  - destruct (remote (interleaved st)) as [f2|]; [|done].
    destruct (bool_decide _); [|done].
    intros [= <- <-]. by eexists.
Qed.

End commit_facts.

(** ** The example collation is a consistent comparator *)

Lemma caseFoldCompare_le a b :
  caseFoldCompare a b <= 0 ↔
  String.le (Js.toLowerCase a) (Js.toLowerCase b).
Proof.
  unfold caseFoldCompare, String.le, String.leb.
  destruct (String.compare _ _); simpl; split; (done || lia).
Qed.

Lemma caseFoldCompare_total a b :
  caseFoldCompare a b <= 0 ∨ caseFoldCompare b a <= 0.
Proof.
  rewrite !caseFoldCompare_le.
  apply (total String.le).
Qed.

Lemma caseFoldCompare_trans a b c :
  caseFoldCompare a b <= 0 → caseFoldCompare b c <= 0 →
  caseFoldCompare a c <= 0.
Proof.
  rewrite !caseFoldCompare_le. apply (transitivity (R:=String.le)).
Qed.

Section merge_claims.
Variable localeCompare : string → string → Z.
Variable blobSha : Document → string.

(** C7 (amended).  An Update intent on a request that is through every
    check, with no other write landing before the commit, on any document.
    If an entry has the original id, the response is the success page and
    the committed document is the sorted current document in which the first
    such entry, in document order, is overwritten by the new exercise in its
    group and at its position; an entry after it that has the original id
    too is kept.  The total count of top-level exercises is unchanged.  An
    entry with the original id is left exactly when the new id is the
    original one or the document held the original id again after the first
    match; none is left when the top-level ids of the document are distinct
    and the new id differs.  If no entry has the original id, the handler
    throws NotFound, answers 500, and the store is left as it was. *)
Theorem update_replaces_first_entry interleaved req st f g bid bn tok originalId
    processedVariations s' :
  basicValidation req = Some (g, bid, bn, tok) →
  remote st = Some f →
  sha f = tok →
  editMode req = Some "true" →
  originalBaseId req = Some originalId →
  originalId ≠ "" →
  has (collectAllIds (editMode req) (originalBaseId req) (content f)) bid
  = false →
  processVariations (variations req) Variacion
    (collectAllIds (editMode req) (originalBaseId req) (content f))
  = Ok (processedVariations, s') →
  tokenOf (interleaved st) = tokenOf st →
  let new := exerciseObject localeCompare bid bn processedVariations in
  ((∃ old, old ∈ allExercises (content f) ∧ e_id old = originalId) →
   ∃ l1 gi l2 pre old post,
     content f = l1 ++ gi :: l2
     ∧ g_items gi = pre ++ old :: post
     ∧ e_id old = originalId
     ∧ Forall (λ e, e_id e ≠ originalId) (allExercises l1 ++ pre)
     ∧ let doc' :=
         sortAll localeCompare
           (l1 ++ {| g_group := g_group gi;
                     g_items := pre ++ new :: post |} :: l2) in
       saveExercise localeCompare blobSha interleaved req st
       = (Status200 (Updated bn),
          {| remote := Some {| content := doc'; sha := blobSha doc' |};
             commits := MsgUpdate bn :: commits (interleaved st) |})
       ∧ exerciseCount doc' = exerciseCount (content f)
       ∧ ((∃ e, e ∈ allExercises doc' ∧ e_id e = originalId)
          ↔ bid = originalId
            ∨ ∃ e, e ∈ post ++ allExercises l2 ∧ e_id e = originalId)
       ∧ (NoDup (e_id <$> allExercises (content f)) → bid ≠ originalId →
          ∀ e, e ∈ allExercises doc' → e_id e ≠ originalId))
  ∧ ((∀ old, old ∈ allExercises (content f) → e_id old ≠ originalId) →
     saveExerciseTry localeCompare blobSha interleaved req g bid bn tok st
     = (Thrown (OriginalNotFound originalId), st)
     ∧ saveExercise localeCompare blobSha interleaved req st
       = (Status500, st)).
Proof.
  intros Hbasic Hf Hsha Hmode Horig Hne Hbase Hpv Htoken new.
  pose proof (saveExercise_validated localeCompare blobSha interleaved
                _ _ _ _ _ _ _ _ _ Hbasic Hf Hsha Hbase Hpv) as Hrun.
  cbn zeta in Hrun. fold new in Hrun.
  rewrite (isEdit_true _ _ Hmode Horig Hne), Horig in Hrun.
  change (default "" (Some originalId)) with originalId in Hrun.
  split.
  - intros (old0 & Hin & Hold0).
    destruct (replaceOriginal originalId new (content f)) as [data|] eqn:Hrep.
    2:{ apply replaceOriginal_None in Hrep.
        rewrite Forall_forall in Hrep. by destruct (Hrep _ Hin). }
    apply replaceOriginal_first in Hrep
      as (l1 & gi & l2 & pre & old & post & Hdoc & Hgi & Hold & Hbefore & ->).
    rewrite (commit_applies_token blobSha _ _ tok) in Hrun
      by (rewrite Htoken; unfold tokenOf; by rewrite Hf, <-Hsha).
    exists l1, gi, l2, pre, old, post.
    do 4 (split; [done|]). cbn zeta.
    set (doc' := sortAll localeCompare _) in *.
    assert (allExercises doc'
            ≡ₚ (allExercises l1 ++ pre) ++ new :: post ++ allExercises l2)
      as Hperm.
    { unfold doc'. rewrite allExercises_sortAll, allExercises_app,
        allExercises_cons. cbn [g_items]. by rewrite <-!app_assoc. }
    assert (allExercises (content f)
            = (allExercises l1 ++ pre) ++ old :: post ++ allExercises l2)
      as Hall.
    { rewrite Hdoc, allExercises_app, allExercises_cons, Hgi.
      by rewrite <-!app_assoc. }
    assert ((∃ e, e ∈ allExercises doc' ∧ e_id e = originalId)
            ↔ bid = originalId
              ∨ ∃ e, e ∈ post ++ allExercises l2 ∧ e_id e = originalId)
      as Hleft.
    { split.
      - intros (e & He & Hid). rewrite Hperm in He.
        apply elem_of_app in He as [He|[->|He]%elem_of_cons].
        + rewrite Forall_forall in Hbefore. by destruct (Hbefore _ He).
        + by left.
        + right. eauto.
      - intros [Hsame|(e & He & Hid)].
        + exists new. split; [|done].
          rewrite Hperm. apply elem_of_app. right. apply list_elem_of_here.
        + exists e. split; [|done].
          rewrite Hperm. apply elem_of_app. right.
          by apply list_elem_of_further. }
    split; [done|]. split; [|split; [done|]].
    + unfold exerciseCount. by rewrite Hperm, Hall, !length_app.
    + intros Hnodup Hnew e He Hid.
      destruct (proj1 Hleft (ex_intro _ e (conj He Hid)))
        as [Hsame|(e' & He' & Hid')]; [done|].
      rewrite Hall, fmap_app, fmap_cons in Hnodup.
      apply NoDup_app in Hnodup as (_ & _ & [Hlater _]%NoDup_cons).
      apply Hlater. rewrite Hold, <-Hid'. apply list_elem_of_fmap. eauto.
  - intros Hnone.
    assert (replaceOriginal originalId new (content f) = None) as Hrep.
    { apply replaceOriginal_None, Forall_forall. intros e He. by apply Hnone. }
    rewrite Hrep in Hrun. split; [|done].
    unfold saveExerciseTry, getExerciseDataFromGithub.
    rewrite Hf, Hsha, bool_decide_eq_true_2 by done. cbn [negb].
    rewrite Hbase, Hpv. cbn zeta. fold new.
    rewrite (isEdit_true _ _ Hmode Horig Hne), Horig.
    change (default "" (Some originalId)) with originalId.
    by rewrite Hrep.
Qed.

(** C8.  A Create intent on a request that is through every check, with
    no other write landing before the commit, for a group name that matches
    no group of the document when both are lower-cased.  The response is the
    success page, and in the committed document exactly one group matches the
    name: the group of that name whose only item is the new exercise.  The
    new exercise has the submitted base id and name, and no [variations]
    field when no variation was submitted.  Against an empty document the
    committed document is that group alone. *)
Theorem create_in_new_group interleaved req st f g bid bn tok
    processedVariations s' :
  basicValidation req = Some (g, bid, bn, tok) →
  remote st = Some f →
  sha f = tok →
  isEdit req = false →
  has (collectAllIds (editMode req) (originalBaseId req) (content f)) bid
  = false →
  processVariations (variations req) Variacion
    (collectAllIds (editMode req) (originalBaseId req) (content f))
  = Ok (processedVariations, s') →
  tokenOf (interleaved st) = tokenOf st →
  Forall (λ g', Js.toLowerCase (g_group g') ≠ Js.toLowerCase g) (content f) →
  let new := exerciseObject localeCompare bid bn processedVariations in
  ∃ doc',
    saveExercise localeCompare blobSha interleaved req st
    = (Status200 (Added bn g),
       {| remote := Some {| content := doc'; sha := blobSha doc' |};
          commits := MsgAdd bn :: commits (interleaved st) |})
    ∧ filter (λ g', Js.toLowerCase (g_group g') = Js.toLowerCase g) doc'
      = [ {| g_group := g; g_items := [new] |} ]
    ∧ e_id new = bid ∧ e_name new = bn
    ∧ (processedVariations = [] → e_variations new = None)
    ∧ (content f = [] → doc' = [ {| g_group := g; g_items := [new] |} ]).
Proof.
  intros Hbasic Hf Hsha Hcreate Hbase Hpv Htoken Hnone new.
  pose proof (saveExercise_validated localeCompare blobSha interleaved
                _ _ _ _ _ _ _ _ _ Hbasic Hf Hsha Hbase Hpv) as Hrun.
  cbn zeta in Hrun. fold new in Hrun. rewrite Hcreate in Hrun.
  rewrite (commit_applies_token blobSha _ _ tok) in Hrun
    by (rewrite Htoken; unfold tokenOf; by rewrite Hf, <-Hsha).
  rewrite (pushToGroup_new _ _ _ Hnone) in Hrun.
  eexists. split; [exact Hrun|].
  split; [|split; [done|split; [done|split]]].
  - unfold sortAll.
    set (sortItems := λ g0 : Group,
           {| g_group := g_group g0;
              g_items := sort (byName localeCompare) (g_items g0) |}).
    set (P := λ g' : Group, Js.toLowerCase (g_group g') = Js.toLowerCase g).
    assert (∀ l : Document, filter P (sortItems <$> l) = sortItems <$> filter P l)
      as Hfilter.
    { induction l as [|x l IH]; [done|].
      rewrite fmap_cons, !filter_cons.
      destruct (decide (P x)), (decide (P (sortItems x))); try done.
      by rewrite fmap_cons, IH. }
    rewrite Hfilter.
    assert (filter P (sort (byGroup localeCompare)
                        (content f ++ [ {| g_group := g; g_items := [new] |} ]))
            = [ {| g_group := g; g_items := [new] |} ]) as ->; [|done].
    apply Permutation_singleton_r.
    rewrite sort_Permutation, filter_app.
    assert (filter P (content f) = []) as ->.
    { clear -Hnone. induction (content f) as [|x l IH]; [done|].
      apply Forall_cons in Hnone as [Hx Hl].
      rewrite filter_cons. destruct (decide (P x)); [done|]. by apply IH. }
    rewrite filter_cons. by destruct (decide (P _)).
  - intros ->. done.
  - intros ->. done.
Qed.


Hypothesis localeCompare_total :
  ∀ a b, localeCompare a b <= 0 ∨ localeCompare b a <= 0.
Hypothesis localeCompare_trans :
  ∀ a b c, localeCompare a b <= 0 → localeCompare b c <= 0 →
           localeCompare a c <= 0.

(** C9.  Whenever the handler answers with the success page, after a
    Create or an Update intent, the document it committed is sorted: the
    groups by group name and, within every group, the items by exercise
    name, in the order of the collation [localeCompare], a consistent
    comparator, and so in every order [before] that this collation refines,
    such as a collation that ignores the case which [localeCompare] uses to
    break ties. *)
Theorem committed_document_sorted (before : string → string → Prop)
    interleaved req st message st' :
  (∀ a b, localeCompare a b <= 0 → before a b) →
  saveExercise localeCompare blobSha interleaved req st
  = (Status200 message, st') →
  ∃ f', remote st' = Some f'
    ∧ StronglySorted (λ a b, before (g_group a) (g_group b)) (content f')
    ∧ Forall (λ g, StronglySorted (λ a b, before (e_name a) (e_name b))
                                  (g_items g))
             (content f').
Proof.
  intros Hrefines (data & Hremote)%saveExercise_200.
  assert (∀ {A} (key : A → string) (l : list A),
            StronglySorted (λ a b, localeCompare (key a) (key b) <= 0) l →
            StronglySorted (λ a b, before (key a) (key b)) l) as Hmono.
  { intros A key l. induction 1 as [|x l Hl IH Hx]; constructor; [done|].
    eapply Forall_impl; [exact Hx|]. intros y. apply Hrefines. }
  eexists. split; [exact Hremote|]. cbn [content]. split.
  - by apply Hmono, sortAll_groups_sorted.
  - eapply Forall_impl; [by apply sortAll_items_sorted|].
    intros g. apply Hmono.
Qed.

End merge_claims.

(** C7, witness: the exercise [squat] of the example document, the second
    item of its second group, is updated and renamed to [back-squat]. *)
Lemma update_replaces_first_entry_witness :
  let req := updateRequest "T1" "squat" "Legs" "back-squat" "Back squat"
               (Some [rawNode "front-squat" "Front"]) in
  let st := storeAt "T1" gymDocument in
  let new := {| e_id := "back-squat"; e_name := "Back squat";
                e_variations := Some [leafNode "front-squat" "Front"] |} in
  let doc' :=
    [ {| g_group := "Back";
         g_items := [ {| e_id := "row"; e_name := "Row"; e_variations := None |} ] |};
      {| g_group := "Legs";
         g_items := [ new;
                      {| e_id := "lunge"; e_name := "Lunge"; e_variations := None |} ]
      |} ] in
  basicValidation req = Some ("Legs", "back-squat", "Back squat", "T1")
  ∧ (∃ old, old ∈ allExercises gymDocument ∧ e_id old = "squat")
  ∧ NoDup (e_id <$> allExercises gymDocument)
  ∧ saveExercise caseFoldCompare sampleSha id req st
    = (Status200 (Updated "Back squat"),
       {| remote := Some {| content := doc'; sha := sampleSha doc' |};
          commits := [MsgUpdate "Back squat"] |})
  ∧ exerciseCount doc' = exerciseCount gymDocument
  ∧ ∀ e, e ∈ allExercises doc' → e_id e ≠ "squat".
Proof.
  intros req st new doc'.
  assert (∃ old, old ∈ allExercises gymDocument ∧ e_id old = "squat") as Hold.
  { exists {| e_id := "squat"; e_name := "Squat";
              e_variations := Some [leafNode "front-squat" "Front"] |}.
    split; [|reflexivity]. apply list_elem_of_In. simpl. tauto. }
  assert (NoDup (e_id <$> allExercises gymDocument)) as Hnodup.
  { compute_done. }
  split; [reflexivity|]. split; [exact Hold|]. split; [exact Hnodup|].
  edestruct (update_replaces_first_entry caseFoldCompare sampleSha id req st
               {| content := gymDocument; sha := "T1" |}) as [Hfound _];
    [by vm_compute..|].
  destruct (Hfound Hold)
    as (l1 & gi & l2 & pre & old & post & _ & _ & _ & _ & Hrun & Hcount & _ & Hgone).
  assert (saveExercise caseFoldCompare sampleSha id req st
          = (Status200 (Updated "Back squat"),
             {| remote := Some {| content := doc'; sha := sampleSha doc' |};
                commits := [MsgUpdate "Back squat"] |})) as Hdoc
    by (by vm_compute).
  rewrite Hdoc in Hrun. injection Hrun as Hcontent _.
  split; [exact Hdoc|]. rewrite Hcontent.
  split; [exact Hcount|].
  apply Hgone; [exact Hnodup|discriminate].
Defined.

(** C7, counterexample to the claim as stated.  The handler itself commits
    a document that holds the id [squat] twice: an addition whose [editMode]
    is [1] and whose [originalBaseId] is [squat] passes the check of the
    base id.  On that document the update of [squat] into [back-squat]
    succeeds, the original id matches an entry and differs from the new id,
    and the later entry with the id [squat] is still there. *)
Lemma update_leaves_later_entry :
  let first := {| editMode := Some "1"; originalBaseId := Some "squat";
                  fileSha := Some "T1"; group := Some "Back";
                  baseId := Some "squat"; baseName := Some "Squat";
                  variations := None |} in
  let squat := {| e_id := "squat"; e_name := "Squat";
                  e_variations := Some [leafNode "front-squat" "Front"] |} in
  let doc :=
    [ {| g_group := "Back";
         g_items := [ {| e_id := "squat"; e_name := "Squat";
                         e_variations := None |} ] |};
      {| g_group := "Legs"; g_items := [squat] |} ] in
  let st := {| remote := Some {| content := doc; sha := "blob:Back,Legs" |};
               commits := [MsgAdd "Squat"] |} in
  let req := updateRequest "blob:Back,Legs" "squat" "Back" "back-squat"
               "Back squat" None in
  let doc' :=
    [ {| g_group := "Back";
         g_items := [ {| e_id := "back-squat"; e_name := "Back squat";
                         e_variations := None |} ] |};
      {| g_group := "Legs"; g_items := [squat] |} ] in
  saveExercise caseFoldCompare sampleSha id first (storeAt "T1" legsDocument)
  = (Status200 (Added "Squat" "Back"), st)
  ∧ (∃ old, old ∈ allExercises doc ∧ e_id old = "squat")
  ∧ "squat" ≠ "back-squat"
  ∧ saveExercise caseFoldCompare sampleSha id req st
    = (Status200 (Updated "Back squat"),
       {| remote := Some {| content := doc'; sha := sampleSha doc' |};
          commits := [MsgUpdate "Back squat"; MsgAdd "Squat"] |})
  ∧ squat ∈ allExercises doc'
  ∧ ∀ localeCompare blobSha,
      ∃ committed st',
        saveExercise localeCompare blobSha id req st
        = (Status200 (Updated "Back squat"), st')
        ∧ remote st' = Some {| content := committed; sha := blobSha committed |}
        ∧ squat ∈ allExercises committed.
Proof.
  intros first squat doc st req doc'.
  split; [by vm_compute|].
  split; [exists squat; split; [|done]; apply list_elem_of_further,
                                          list_elem_of_here|].
  split; [done|]. split; [by vm_compute|].
  split; [apply list_elem_of_further, list_elem_of_here|].
  intros localeCompare blobSha.
  exists (sortAll localeCompare doc'). eexists.
  split; [reflexivity|]. split; [reflexivity|].
  rewrite allExercises_sortAll.
  apply list_elem_of_further, list_elem_of_here.
Qed.

(** C8, witness: the bench press example against an empty document. *)
Lemma create_in_new_group_witness :
  let req := addRequest "T1" "Chest" "bench-press" "Bench Press" None in
  let st := storeAt "T1" [] in
  let doc' := [ {| g_group := "Chest";
                   g_items := [ {| e_id := "bench-press"; e_name := "Bench Press";
                                   e_variations := None |} ] |} ] in
  basicValidation req = Some ("Chest", "bench-press", "Bench Press", "T1")
  ∧ isEdit req = false
  ∧ saveExercise caseFoldCompare sampleSha id req st
    = (Status200 (Added "Bench Press" "Chest"),
       {| remote := Some {| content := doc'; sha := sampleSha doc' |};
          commits := [MsgAdd "Bench Press"] |}).
Proof.
  intros req st doc'.
  split; [reflexivity|]. split; [reflexivity|].
  edestruct (create_in_new_group caseFoldCompare sampleSha id req st
               {| content := []; sha := "T1" |})
    as (doc0 & Hrun & _ & _ & _ & _ & Hempty);
    [by vm_compute..|constructor|].
  rewrite (Hempty eq_refl) in Hrun. exact Hrun.
Defined.

(** C9, witness: an exercise is added to the group [legs] of the example
    document; its name sorts before the two names of the group. *)
Lemma committed_document_sorted_witness :
  let req := addRequest "T1" "legs" "calf-raise" "calf raise" None in
  let st := storeAt "T1" gymDocument in
  ∃ doc',
    (saveExercise caseFoldCompare sampleSha id req st).1
    = Status200 (Added "calf raise" "legs")
    ∧ content <$> remote (saveExercise caseFoldCompare sampleSha id req st).2
      = Some doc'
    ∧ e_name <$> allExercises doc' = ["Row"; "calf raise"; "Lunge"; "Squat"]
    ∧ StronglySorted (λ a b, caseFoldCompare (g_group a) (g_group b) <= 0) doc'
    ∧ Forall (λ g, StronglySorted
                     (λ a b, caseFoldCompare (e_name a) (e_name b) <= 0)
                     (g_items g)) doc'.
Proof.
  intros req st.
  destruct (saveExercise caseFoldCompare sampleSha id req st) as [r st'] eqn:Hrun.
  assert (r = Status200 (Added "calf raise" "legs")) as ->
    by (by vm_compute in Hrun; injection Hrun as <- _).
  destruct (committed_document_sorted caseFoldCompare sampleSha
              caseFoldCompare_total caseFoldCompare_trans
              (λ a b, caseFoldCompare a b <= 0) id req st _ _
              (λ a b H, H) Hrun)
    as (f' & Hf' & Hgroups & Hitems).
  exists (content f'). cbn [fst snd]. rewrite Hf'.
  split; [reflexivity|]. split; [reflexivity|]. split; [|by split].
  vm_compute in Hrun. injection Hrun as <-.
  cbn [remote] in Hf'. by injection Hf' as <-.
Defined.


(** ** The shared set only grows *)

Lemma mapItems_grows callback :
  (∀ item ids s n ids' s',
      callback item ids s = Ok ((n, ids'), s') → s ⊆ s') →
  ∀ l ids s out s', mapItems callback l ids s = Ok (out, s') → s ⊆ s'.
Proof.
  intros Hcb. induction l as [|item rest IH]; intros ids s out s'.
  - by intros [= <- <-].
  - intros (n & ids1 & s1 & processed & Hn & Hrest & ->)%mapItems_cons_Ok.
    trans s1; eauto.
Qed.

Lemma processItem_grows levelName item ids s n ids' s' :
  processItem levelName item ids s = Ok ((n, ids'), s') →
  add (trimOrEmpty (r_id item)) s ⊆ s'.
Proof.
  assert (∀ lv,
    (∀ item s subs s1,
       subVariationsField lv item s = Ok (subs, s1) → s ⊆ s1) →
    (∀ item s ets s1,
       executionTypesField lv item s = Ok (ets, s1) → s ⊆ s1) →
    ∀ item ids s n ids' s',
      processItem lv item ids s = Ok ((n, ids'), s') →
      add (trimOrEmpty (r_id item)) s ⊆ s') as Hstep.
  { intros lv Hsub Hexec item' ids0 s0 n0 ids0' s0'.
    intros (_ & _ & _ & _ & _ & _ & sv & s1 & et & Hsv & Het & _)%processItem_Ok.
    trans s1; eauto. }
  assert (∀ lv
    (Hnext : ∀ item ids s n ids' s',
       processItem lv item ids s = Ok ((n, ids'), s') →
       add (trimOrEmpty (r_id item)) s ⊆ s')
    l s subs s1,
    (processed ← processVariations (Some l) lv; mret (omitEmpty processed)) s
    = Ok (subs, s1) → s ⊆ s1) as Hchildren.
  { intros lv Hnext l s0 subs s1. cbn [processVariations]. unfold_M.
    destruct (mapItems _ l ∅ s0) as [[processed s2]|] eqn:Hl; [|done].
    intros [= _ <-]. eapply mapItems_grows; [|exact Hl].
    intros item' ids0 s3 n0 ids0' s3' Hitem.
    trans (add (trimOrEmpty (r_id item')) s3); [|by eapply Hnext].
    intros x Hx. apply elem_of_add. by left. }
  assert (∀ (lv : Level) (item : RawNode) s fld s1,
            (mret None : M (option (list Node))) s = Ok (fld, s1) → s ⊆ s1)
    as Hnone.
  { intros _ _ s0 fld s1. unfold_M. by intros [= _ <-]. }
  pose proof (Hstep TipoEjecucion (Hnone TipoEjecucion) (Hnone TipoEjecucion))
    as H3.
  assert (∀ item ids s n ids' s',
    processItem SubVariacion item ids s = Ok ((n, ids'), s') →
    add (trimOrEmpty (r_id item)) s ⊆ s') as H2.
  { apply Hstep; [apply (Hnone SubVariacion)|].
    intros item' s0 ets s1. unfold executionTypesField.
    destruct (r_executionTypes item'); [by apply Hchildren|].
    by apply (Hnone SubVariacion item'). }
  destruct levelName; [|by eauto..].
  apply Hstep; [|apply (Hnone Variacion)].
  intros item' s0 subs s1. unfold subVariationsField.
  destruct (r_subVariations item'); [by apply Hchildren|].
  by apply (Hnone Variacion item').
Qed.

(** Splitting a [map] at an item: what comes after the item runs from the
    sets that the items before it leave. *)
Lemma mapItems_app_Ok callback l1 ids s outs s1 :
  mapItems callback l1 ids s = Ok (outs, s1) →
  ∃ ids1, ∀ l2,
    mapItems callback (l1 ++ l2) ids s
    = (processed ← mapItems callback l2 ids1; mret (outs ++ processed)) s1.
Proof.
  revert ids s outs. induction l1 as [|x l1 IH]; intros ids s outs.
  - intros [= <- <-]. exists ids. intros l2. cbn [app]. unfold_M.
    by destruct (mapItems callback l2 ids s) as [[? ?]|].
  - intros (n & ids1 & s2 & processed & Hx & Hrest & ->)%mapItems_cons_Ok.
    destruct (IH _ _ _ Hrest) as [ids2 Happ]. exists ids2. intros l2.
    change ((x :: l1) ++ l2) with (x :: (l1 ++ l2)).
    cbn [mapItems]. unfold_M. rewrite Hx. fold (mapItems callback).
    rewrite Happ. unfold_M.
    by destruct (mapItems callback l2 ids2 s1) as [[? ?]|].
Qed.

Lemma mapItems_prefix_Err callback l1 l2 ids s e :
  mapItems callback l1 ids s = Err e →
  mapItems callback (l1 ++ l2) ids s = Err e.
Proof.
  revert ids s. induction l1 as [|x l1 IH]; intros ids s; [done|].
  change ((x :: l1) ++ l2) with (x :: (l1 ++ l2)).
  cbn [mapItems]. unfold_M.
  destruct (callback x ids s) as [[[n ids1] s1]|]; [|done].
  fold (mapItems callback).
  destruct (mapItems callback l1 ids1 s1) as [[? ?]|] eqn:Hl1; [done|].
  intros [= <-]. by rewrite (IH _ _ Hl1).
Qed.

(** X2.  Two nodes of one level whose trimmed ids are equal: when the
    second is reached, with a name that is not empty after trimming,
    normalization fails with DuplicateId. *)
Theorem sibling_duplicate_rejected levelName pre a mid b post s outs s1 :
  processVariations (Some (pre ++ a :: mid)) levelName s = Ok (outs, s1) →
  trimOrEmpty (r_id b) = trimOrEmpty (r_id a) →
  trimOrEmpty (r_name b) ≠ "" →
  processVariations (Some (pre ++ a :: mid ++ b :: post)) levelName s
  = Err (DuplicateId levelName (trimOrEmpty (r_id a))).
Proof.
  cbn [processVariations]. intros Hrun Hid Hname.
  assert (Js.testIdPattern (trimOrEmpty (r_id a)) = true
          ∧ trimOrEmpty (r_id a) ∈ s1) as [Hpat Hin].
  { destruct (mapItems (processItem levelName) pre ∅ s)
      as [[outs0 s0]|e] eqn:Hpre.
    2:{ by rewrite (mapItems_prefix_Err _ _ _ _ _ _ Hpre) in Hrun. }
    destruct (mapItems_app_Ok _ _ _ _ _ _ Hpre) as [ids1 Happ].
    rewrite Happ in Hrun. unfold_M.
    destruct (mapItems (processItem levelName) (a :: mid) ids1 s0)
      as [[processed s2]|] eqn:Ha; [|done].
    injection Hrun as _ <-.
    apply mapItems_cons_Ok in Ha as (n & ids2 & s3 & rest & Ha & Hmid & _).
    split; [by apply processItem_Ok in Ha as (_ & ? & _)|].
    assert (add (trimOrEmpty (r_id a)) s0 ⊆ s3) as Hs3
      by (by eapply processItem_grows).
    assert (s3 ⊆ s2) as Hs2.
    { eapply mapItems_grows; [|exact Hmid]. intros item ids s4 n0 ids' s4' Hitem.
      trans (add (trimOrEmpty (r_id item)) s4); [|by eapply processItem_grows].
      intros x Hx. apply elem_of_add. by left. }
    apply Hs2, Hs3, elem_of_add. by right. }
  change (pre ++ a :: mid ++ b :: post)
    with (pre ++ (a :: mid) ++ b :: post).
  rewrite app_assoc. change (pre ++ a :: mid) with (pre ++ (a :: mid)) in Hrun.
  destruct (mapItems_app_Ok _ _ _ _ _ _ Hrun) as [ids1 Happ].
  rewrite Happ. unfold_M. cbn [mapItems]. unfold_M.
  rewrite processItem_eq. cbn zeta. unfold_M.
  rewrite Hid, Hpat, (testIdPattern_truthy _ Hpat). cbn [negb orb].
  destruct (trimOrEmpty (r_name b)) as [|c r] eqn:Hb; [done|]. cbn.
  unfold has at 1. by rewrite bool_decide_eq_true_2.
Qed.

(** X2, witness: the third variation repeats the id of the first, with
    white space around it. *)
Lemma sibling_duplicate_rejected_witness :
  let a := rawNode "flat" "Flat" in
  let mid := [rawNode "incline" "Incline"] in
  let b := rawNode " flat " "Flat again" in
  processVariations (Some ([] ++ a :: mid)) Variacion ∅
  = Ok ([leafNode "flat" "Flat"; leafNode "incline" "Incline"],
        add "incline" (add "flat" ∅))
  ∧ trimOrEmpty (r_id b) = trimOrEmpty (r_id a)
  ∧ trimOrEmpty (r_name b) ≠ ""
  ∧ processVariations (Some ([] ++ a :: mid ++ b :: [])) Variacion ∅
    = Err (DuplicateId Variacion "flat").
Proof.
  intros a mid b.
  assert (processVariations (Some ([] ++ a :: mid)) Variacion ∅
          = Ok ([leafNode "flat" "Flat"; leafNode "incline" "Incline"],
                add "incline" (add "flat" ∅))) as Hrun by (by vm_compute).
  assert (trimOrEmpty (r_name b) ≠ "") as Hname by discriminate.
  split; [exact Hrun|]. split; [reflexivity|]. split; [exact Hname|].
  exact (sibling_duplicate_rejected Variacion [] a mid b [] ∅ _ _
           Hrun eq_refl Hname).
Defined.

(** ** What a successful validation adds to the shared set *)

Lemma addsFresh_nil s : addsFresh s [] s.
Proof.
  split; [constructor|]. split; [by intros x ?%elem_of_nil|].
  intros x. split; [by left|]. by intros [?|?%elem_of_nil].
Qed.

Lemma addsFresh_app s a s1 b s' :
  addsFresh s a s1 → addsFresh s1 b s' → addsFresh s (a ++ b) s'.
Proof.
  intros (Ha & Hfa & Hs1) (Hb & Hfb & Hs'). split; [|split].
  - apply NoDup_app. split; [done|]. split; [|done].
    intros x Hxa Hxb. apply (Hfb x Hxb), Hs1. by right.
  - intros x [Hx|Hx]%elem_of_app; [by apply Hfa|].
    intros Hs. apply (Hfb x Hx), Hs1. by left.
  - intros x. rewrite Hs', Hs1, elem_of_app. tauto.
Qed.

Lemma addsFresh_add s x : x ∉ s → addsFresh s [x] (add x s).
Proof.
  intros Hx. split; [apply NoDup_singleton|]. split.
  - by intros y ->%list_elem_of_singleton.
  - intros y. by rewrite elem_of_add, list_elem_of_singleton.
Qed.

Lemma mapItems_addsFresh callback (g : Node → list string) :
  (∀ item ids s n ids' s',
      callback item ids s = Ok ((n, ids'), s') → addsFresh s (g n) s') →
  ∀ l ids s out s',
    mapItems callback l ids s = Ok (out, s') → addsFresh s (out ≫= g) s'.
Proof.
  intros Hcb. induction l as [|item rest IH]; intros ids s out s'.
  - intros [= <- <-]. apply addsFresh_nil.
  - intros (n & ids1 & s1 & processed & Hn & Hrest & ->)%mapItems_cons_Ok.
    rewrite bind_cons. eapply addsFresh_app; eauto.
Qed.

Lemma default_omitEmpty (l : list Node) : default [] (omitEmpty l) = l.
Proof. by destruct l. Qed.

Lemma bind_singleton_fmap (l : list Node) :
  l ≫= (λ n, [n_id n]) = n_id <$> l.
Proof. induction l as [|n l IH]; [done|]. by rewrite bind_cons, fmap_cons, IH. Qed.

Lemma processItem_addsFresh levelName item ids s n ids' s' :
  processItem levelName item ids s = Ok ((n, ids'), s') →
  addsFresh s (idsAt levelName n) s'.
Proof.
  assert (∀ item ids s n ids' s',
    processItem TipoEjecucion item ids s = Ok ((n, ids'), s') →
    addsFresh s [n_id n] s') as H3.
  { intros item' ids0 s0 n0 ids0' s0'.
    intros (_ & _ & _ & Hs%bool_decide_eq_false & _ & _
            & sv & s1 & et & Hsv & Het & ->)%processItem_Ok.
    unfold subVariationsField, executionTypesField in *. simpl in Hsv, Het.
    unfold_M. simplify_eq. by apply addsFresh_add. }
  assert (∀ item ids s n ids' s',
    processItem SubVariacion item ids s = Ok ((n, ids'), s') →
    addsFresh s (subVariationIds n) s') as H2.
  { intros item' ids0 s0 n0 ids0' s0'.
    intros (_ & _ & _ & Hs%bool_decide_eq_false & _ & _
            & sv & s1 & et & Hsv & Het & ->)%processItem_Ok.
    unfold subVariationsField, executionTypesField in *. simpl in Hsv.
    unfold_M. injection Hsv as <- <-.
    unfold subVariationIds. cbn [n_id n_executionTypes].
    apply (addsFresh_app _ [_] _ _ _ (addsFresh_add _ _ Hs)).
    destruct (r_executionTypes item') as [l|]; simpl in Het.
    - unfold_M.
      destruct (mapItems _ l ∅ _) as [[processed s2]|] eqn:Hl; [|done].
      injection Het as <- <-.
      rewrite default_omitEmpty, <-bind_singleton_fmap.
      by apply (mapItems_addsFresh _ _ H3 _ _ _ _ _ Hl).
    - unfold_M. injection Het as <- <-. apply addsFresh_nil. }
  destruct levelName; cbn [idsAt]; [|by eauto..].
  intros (_ & _ & _ & Hs%bool_decide_eq_false & _ & _
          & sv & s1 & et & Hsv & Het & ->)%processItem_Ok.
  unfold subVariationsField, executionTypesField in *. simpl in Het.
  unfold_M. injection Het as <- <-.
  unfold variationIds. cbn [n_id n_subVariations].
  apply (addsFresh_app _ [_] _ _ _ (addsFresh_add _ _ Hs)).
  destruct (r_subVariations item) as [l|]; simpl in Hsv.
  - unfold_M.
    destruct (mapItems _ l ∅ _) as [[processed s2]|] eqn:Hl; [|done].
    injection Hsv as <- <-.
    rewrite default_omitEmpty.
    by apply (mapItems_addsFresh _ _ H2 _ _ _ _ _ Hl).
  - unfold_M. injection Hsv as <- <-. apply addsFresh_nil.
Qed.

Lemma processVariations_addsFresh levelData levelName s out s' :
  processVariations levelData levelName s = Ok (out, s') →
  addsFresh s (out ≫= idsAt levelName) s'.
Proof.
  destruct levelData as [l|]; cbn [processVariations].
  - intros Hrun. eapply (mapItems_addsFresh _ (idsAt levelName)); [|exact Hrun].
    intros item ids s0 n ids' s0'. apply processItem_addsFresh.
  - intros [= <- <-]. apply addsFresh_nil.
Qed.

(** X3.  After a successful run of [processVariations], the identifiers of
    the output, at the level of the call and at every level below it, are
    pairwise distinct, none of them was in the set of taken identifiers, and
    the set afterwards is the set before with exactly these identifiers. *)
Theorem validated_ids_are_fresh levelData levelName s out s' :
  processVariations levelData levelName s = Ok (out, s') →
  NoDup (out ≫= idsAt levelName)
  ∧ (∀ x, x ∈ out ≫= idsAt levelName → x ∉ s)
  ∧ (∀ x, x ∈ s' ↔ x ∈ s ∨ x ∈ out ≫= idsAt levelName).
Proof.
  intros Hrun.
  destruct (processVariations_addsFresh _ _ _ _ _ Hrun) as (Hnodup & Hfresh & Hs').
  split; [exact Hnodup|]. split; [exact Hfresh|exact Hs'].
Qed.

(** X3, witness: a variation with a sub-variation and an execution type,
    validated against a set that holds one identifier. *)
Lemma validated_ids_are_fresh_witness :
  let raw :=
    [ {| r_id := Some "incline"; r_name := Some "Incline";
         r_imageUrl := None; r_isUnilateral := FlagUndefined;
         r_subVariations :=
           Some [ {| r_id := Some "incline-db"; r_name := Some "Dumbbell";
                     r_imageUrl := None; r_isUnilateral := FlagUndefined;
                     r_subVariations := None;
                     r_executionTypes := Some [rawNode "incline-db-slow" "Slow"] |} ];
         r_executionTypes := None |} ] in
  let s := add "squat" ∅ in
  let out := normalForm Variacion <$> raw in
  out ≫= idsAt Variacion = ["incline"; "incline-db"; "incline-db-slow"]
  ∧ (∃ s', processVariations (Some raw) Variacion s = Ok (out, s'))
  ∧ NoDup (out ≫= idsAt Variacion)
  ∧ ∀ x, x ∈ out ≫= idsAt Variacion → x ∉ s.
Proof.
  intros raw s out.
  assert (∃ s', processVariations (Some raw) Variacion s = Ok (out, s'))
    as [s' Hrun] by (eexists; by vm_compute).
  destruct (validated_ids_are_fresh _ _ _ _ _ Hrun) as (Hnodup & Hfresh & _).
  split; [reflexivity|]. split; [by exists s'|]. by split.
Defined.

(** ** The shape of a validated tree *)

Lemma orUndefined_not_empty v : orUndefined v ≠ Some "".
Proof. by destruct v as [[|c r]|]. Qed.

Lemma truthyString_not_empty s : Js.truthyString s = true → s ≠ "".
Proof. by destruct s. Qed.

Lemma childrenOk_omitEmpty ok (l : list Node) :
  Forall ok l → childrenOk ok (omitEmpty l).
Proof. destruct l; [done|]. by split. Qed.

Lemma mapItems_Forall callback (P : Node → Prop) :
  (∀ item ids s n ids' s', callback item ids s = Ok ((n, ids'), s') → P n) →
  ∀ l ids s out s', mapItems callback l ids s = Ok (out, s') → Forall P out.
Proof.
  intros Hcb. induction l as [|item rest IH]; intros ids s out s'.
  - intros [= <- <-]. constructor.
  - intros (n & ids1 & s1 & processed & Hn & Hrest & ->)%mapItems_cons_Ok.
    constructor; eauto.
Qed.

Lemma processItem_nodeOk levelName item ids s n ids' s' :
  processItem levelName item ids s = Ok ((n, ids'), s') →
  nodeOk levelName n.
Proof.
  assert (∀ lv item ids s n ids' s',
    processItem lv item ids s = Ok ((n, ids'), s') → fieldsOk n) as Hfields.
  { intros lv item' ids0 s0 n0 ids0' s0'.
    intros (_ & Hpat & Hname & _ & _ & _ & sv & s1 & et & _ & _ & ->)
      %processItem_Ok.
    split; [done|]. split; [by apply truthyString_not_empty|].
    apply orUndefined_not_empty. }
  assert (∀ item ids s n ids' s',
    processItem TipoEjecucion item ids s = Ok ((n, ids'), s') →
    executionTypeOk n) as H3.
  { intros item' ids0 s0 n0 ids0' s0' Hrun.
    split; [by eapply Hfields|].
    apply processItem_Ok in Hrun
      as (_ & _ & _ & _ & _ & _ & sv & s1 & et & Hsv & Het & ->).
    unfold subVariationsField, executionTypesField in *. simpl in Hsv, Het.
    unfold_M. by simplify_eq. }
  assert (∀ item ids s n ids' s',
    processItem SubVariacion item ids s = Ok ((n, ids'), s') →
    subVariationOk n) as H2.
  { intros item' ids0 s0 n0 ids0' s0' Hrun.
    split; [by eapply Hfields|].
    apply processItem_Ok in Hrun
      as (_ & _ & _ & _ & _ & _ & sv & s1 & et & Hsv & Het & ->).
    unfold subVariationsField, executionTypesField in *. simpl in Hsv.
    unfold_M. injection Hsv as <- <-. split; [done|]. cbn [n_executionTypes].
    destruct (r_executionTypes item') as [l|]; simpl in Het; unfold_M.
    - destruct (mapItems _ l ∅ _) as [[processed s2]|] eqn:Hl; [|done].
      injection Het as <- <-. apply childrenOk_omitEmpty.
      by apply (mapItems_Forall _ _ H3 _ _ _ _ _ Hl).
    - by injection Het as <- <-. }
  destruct levelName; cbn [nodeOk]; [|by eauto..].
  intros Hrun. split; [by eapply Hfields|].
  apply processItem_Ok in Hrun
    as (_ & _ & _ & _ & _ & _ & sv & s1 & et & Hsv & Het & ->).
  unfold subVariationsField, executionTypesField in *. simpl in Het.
  unfold_M. injection Het as <- <-. split; [done|]. cbn [n_subVariations].
  destruct (r_subVariations item) as [l|]; simpl in Hsv; unfold_M.
  - destruct (mapItems _ l ∅ _) as [[processed s2]|] eqn:Hl; [|done].
    injection Hsv as <- <-. apply childrenOk_omitEmpty.
    by apply (mapItems_Forall _ _ H2 _ _ _ _ _ Hl).
  - by injection Hsv as <- <-.
Qed.

(** X4.  The output of a successful run of [processVariations] is a
    well-formed tree of its level: every node, at every level, has an id of
    the identifier syntax, a name that is not empty and no empty image url;
    a node holds only the children field of its level, which is absent or
    not empty, and an execution type holds none, so that the tree is never
    deeper than the three levels below the exercise, whatever was
    submitted. *)
Theorem validated_tree_is_well_formed levelData levelName s out s' :
  processVariations levelData levelName s = Ok (out, s') →
  Forall (nodeOk levelName) out.
Proof.
  destruct levelData as [l|]; cbn [processVariations].
  - apply mapItems_Forall. intros item ids s0 n ids' s0'.
    apply processItem_nodeOk.
  - intros [= <- <-]. constructor.
Qed.

(** X4, witness: execution types submitted under a variation and children
    submitted under an execution type do not reach the output. *)
Lemma validated_tree_is_well_formed_witness :
  let deep := {| r_id := Some "slow"; r_name := Some "Slow";
                 r_imageUrl := Some ""; r_isUnilateral := FlagUndefined;
                 r_subVariations := Some [rawNode "deeper" "Deeper"];
                 r_executionTypes := Some [rawNode "deepest" "Deepest"] |} in
  let raw :=
    [ {| r_id := Some "incline"; r_name := Some "Incline";
         r_imageUrl := None; r_isUnilateral := FlagUndefined;
         r_subVariations :=
           Some [ {| r_id := Some "incline-db"; r_name := Some "Dumbbell";
                     r_imageUrl := None; r_isUnilateral := FlagUndefined;
                     r_subVariations := Some [rawNode "misplaced" "Misplaced"];
                     r_executionTypes := Some [deep] |} ];
         r_executionTypes := Some [rawNode "dropped" "Dropped"] |} ] in
  let out :=
    [ {| n_id := "incline"; n_name := "Incline"; n_imageUrl := None;
         n_isUnilateral := false;
         n_subVariations :=
           Some [ {| n_id := "incline-db"; n_name := "Dumbbell";
                     n_imageUrl := None; n_isUnilateral := false;
                     n_subVariations := None;
                     n_executionTypes := Some [leafNode "slow" "Slow"] |} ];
         n_executionTypes := None |} ] in
  (∃ s', processVariations (Some raw) Variacion ∅ = Ok (out, s'))
  ∧ Forall (nodeOk Variacion) out.
Proof.
  intros deep raw out.
  assert (∃ s', processVariations (Some raw) Variacion ∅ = Ok (out, s'))
    as [s' Hrun] by (eexists; by vm_compute).
  split; [by exists s'|].
  exact (validated_tree_is_well_formed _ _ _ _ _ Hrun).
Defined.

(** X5.  A node that is reached, with a well-formed id and a name that is
    not empty, fails with DuplicateId when its trimmed id is already taken:
    by the document (the set the call starts from) or by any node validated
    before it in this call, at the level of the call or below it. *)
Theorem taken_id_rejected levelName pre item post s outs s1 :
  processVariations (Some pre) levelName s = Ok (outs, s1) →
  Js.testIdPattern (trimOrEmpty (r_id item)) = true →
  trimOrEmpty (r_name item) ≠ "" →
  trimOrEmpty (r_id item) ∈ s
  ∨ trimOrEmpty (r_id item) ∈ outs ≫= idsAt levelName →
  processVariations (Some (pre ++ item :: post)) levelName s
  = Err (DuplicateId levelName (trimOrEmpty (r_id item))).
Proof.
  intros Hpre Hpat Hname Htaken.
  assert (trimOrEmpty (r_id item) ∈ s1) as Hin.
  { by apply (processVariations_addsFresh _ _ _ _ _ Hpre). }
  cbn [processVariations] in *.
  destruct (mapItems_app_Ok _ _ _ _ _ _ Hpre) as [ids1 Happ].
  rewrite Happ. unfold_M. cbn [mapItems]. unfold_M.
  rewrite processItem_eq. cbn zeta. unfold_M.
  rewrite Hpat, (testIdPattern_truthy _ Hpat). cbn [negb orb].
  destruct (trimOrEmpty (r_name item)) as [|c r] eqn:Hb; [done|]. cbn.
  unfold has at 1. by rewrite bool_decide_eq_true_2.
Qed.

(** X5, witness: the second variation takes the id of the sub-variation of
    the first. *)
Lemma taken_id_rejected_witness :
  let first :=
    {| r_id := Some "incline"; r_name := Some "Incline";
       r_imageUrl := None; r_isUnilateral := FlagUndefined;
       r_subVariations := Some [rawNode "incline-db" "Dumbbell"];
       r_executionTypes := None |} in
  let item := rawNode "incline-db" "Again" in
  let outs := normalForm Variacion <$> [first] in
  (∃ s1, processVariations (Some [first]) Variacion ∅ = Ok (outs, s1))
  ∧ trimOrEmpty (r_id item) ∈ outs ≫= idsAt Variacion
  ∧ processVariations (Some ([first] ++ item :: [])) Variacion ∅
    = Err (DuplicateId Variacion "incline-db").
Proof.
  intros first item outs.
  assert (∃ s1, processVariations (Some [first]) Variacion ∅ = Ok (outs, s1))
    as [s1 Hpre] by (eexists; by vm_compute).
  assert (trimOrEmpty (r_id item) ∈ outs ≫= idsAt Variacion) as Hin.
  { apply list_elem_of_In. vm_compute. tauto. }
  assert (trimOrEmpty (r_name item) ≠ "") as Hname by discriminate.
  split; [by exists s1|]. split; [exact Hin|].
  exact (taken_id_rejected Variacion [first] item [] ∅ outs s1 Hpre
           eq_refl Hname (or_intror Hin)).
Defined.

(** ** Document-wide uniqueness through a write *)

Lemma collectAllIds_spec editMode originalBaseId (doc : Document) x :
  x ∈ collectAllIds editMode originalBaseId doc ↔
  ∃ item, item ∈ allExercises doc
          ∧ (Js.truthy editMode = false ∨ originalBaseId ≠ Some (e_id item))
          ∧ x ∈ exerciseIds item.
Proof.
  unfold collectAllIds, allExercises.
  set (counted := λ item : Exercise,
         Js.truthy editMode = false ∨ originalBaseId ≠ Some (e_id item)).
  rewrite (elem_of_foldl_adds
             (λ g s, foldl (λ s item, addItem editMode originalBaseId item s)
                           s (g_items g))
             (λ g x, ∃ item, item ∈ g_items g ∧ counted item
                             ∧ x ∈ exerciseIds item)).
  - split.
    + intros [?%elem_of_empty|(g & Hg & item & Hitem & Hc & Hx)]; [done|].
      exists item. split; [|done]. apply list_elem_of_bind. eauto.
    + intros (item & (g & Hitem & Hg)%list_elem_of_bind & Hc & Hx).
      right. eauto 6.
  - intros g s y.
    apply (elem_of_foldl_adds (addItem editMode originalBaseId)
             (λ item x, counted item ∧ x ∈ exerciseIds item)).
    intros item s' z. apply elem_of_addItem.
Qed.

Lemma e_id_in_exerciseIds item : e_id item ∈ exerciseIds item.
Proof. apply list_elem_of_here. Qed.

Section uniqueness_facts.
Variable localeCompare : string → string → Z.

Lemma exerciseIds_exerciseObject bid bn (pv : list Node) :
  exerciseIds (exerciseObject localeCompare bid bn pv)
  ≡ₚ bid :: pv ≫= variationIds.
Proof.
  unfold exerciseIds, exerciseObject. cbn [e_id e_variations].
  constructor. destruct pv as [|n pv]; [done|].
  cbn [default from_option id]. by rewrite sort_Permutation.
Qed.

(** The identifiers of the new exercise beside those of the exercises that
    stay: they are all distinct exactly when no submitted node carries the
    base id, which is checked against the taken identifiers but not added to
    them. *)
Lemma new_exercise_NoDup (others : list Exercise) (allIds : IdSet) bid bn
    levelData pv s' :
  NoDup (others ≫= exerciseIds) →
  (∀ x, x ∈ others ≫= exerciseIds → x ∈ allIds) →
  bid ∉ allIds →
  processVariations levelData Variacion allIds = Ok (pv, s') →
  NoDup ((exerciseObject localeCompare bid bn pv :: others) ≫= exerciseIds)
  ↔ bid ∉ pv ≫= variationIds.
Proof.
  intros Hothers Hsub Hbid Hpv.
  destruct (processVariations_addsFresh _ _ _ _ _ Hpv) as (Hnodup & Hfresh & _).
  cbn [idsAt] in *.
  rewrite bind_cons, exerciseIds_exerciseObject.
  rewrite NoDup_app, NoDup_cons. split; [by intros [[? _] _]|].
  intros Hnot. split; [done|]. split; [|done].
  intros x [->|Hx]%elem_of_cons Hin; [by apply Hbid, Hsub|].
  by apply (Hfresh x Hx), Hsub.
Qed.

End uniqueness_facts.

Section uniqueness_claims.
Variable localeCompare : string → string → Z.
Variable blobSha : Document → string.

(** X6.  An addition ([editMode] absent or empty) to a document whose
    identifiers are all distinct, on a request that is through every check
    and commits with no other write in between: the identifiers of the
    committed document, at its four levels, are all distinct exactly when no
    submitted node carries the base id.  The base id is looked up in the
    taken identifiers but not added to them, so that a variation may repeat
    it. *)
Theorem addition_keeps_ids_unique interleaved req st f g bid bn tok
    processedVariations s' :
  basicValidation req = Some (g, bid, bn, tok) →
  remote st = Some f →
  sha f = tok →
  Js.truthy (editMode req) = false →
  has (collectAllIds (editMode req) (originalBaseId req) (content f)) bid
  = false →
  processVariations (variations req) Variacion
    (collectAllIds (editMode req) (originalBaseId req) (content f))
  = Ok (processedVariations, s') →
  tokenOf (interleaved st) = tokenOf st →
  NoDup (documentIds (content f)) →
  ∃ doc',
    saveExercise localeCompare blobSha interleaved req st
    = (Status200 (Added bn g),
       {| remote := Some {| content := doc'; sha := blobSha doc' |};
          commits := MsgAdd bn :: commits (interleaved st) |})
    ∧ (NoDup (documentIds doc')
       ↔ bid ∉ processedVariations ≫= variationIds).
Proof.
  intros Hbasic Hf Hsha Hmode Hbase Hpv Htoken Hdoc.
  pose proof (saveExercise_validated localeCompare blobSha interleaved
                _ _ _ _ _ _ _ _ _ Hbasic Hf Hsha Hbase Hpv) as Hrun.
  cbn zeta in Hrun.
  assert (isEdit req = false) as Hcreate.
  { unfold isEdit, Js.strictEq. case_bool_decide as Heq; [|done].
    by rewrite Heq in Hmode. }
  rewrite Hcreate in Hrun.
  rewrite (commit_applies_token blobSha _ _ tok) in Hrun
    by (rewrite Htoken; unfold tokenOf; by rewrite Hf, <-Hsha).
  eexists. split; [exact Hrun|].
  unfold documentIds.
  rewrite allExercises_sortAll, allExercises_pushToGroup.
  eapply new_exercise_NoDup; [exact Hdoc| |by apply bool_decide_eq_false in Hbase
                              |exact Hpv].
  intros x (item & Hx & Hitem)%list_elem_of_bind.
  apply collectAllIds_spec. exists item. auto.
Qed.

(** X7.  An update of a document whose identifiers are all distinct, on a
    request that is through every check, names an existing exercise and
    commits with no other write in between: the identifiers of the committed
    document are all distinct exactly when no submitted node carries the new
    base id.  The identifiers of the replaced exercise are free again for
    the submitted tree. *)
Theorem update_keeps_ids_unique interleaved req st f g bid bn tok originalId
    processedVariations s' :
  basicValidation req = Some (g, bid, bn, tok) →
  remote st = Some f →
  sha f = tok →
  editMode req = Some "true" →
  originalBaseId req = Some originalId →
  originalId ≠ "" →
  has (collectAllIds (editMode req) (originalBaseId req) (content f)) bid
  = false →
  processVariations (variations req) Variacion
    (collectAllIds (editMode req) (originalBaseId req) (content f))
  = Ok (processedVariations, s') →
  tokenOf (interleaved st) = tokenOf st →
  NoDup (documentIds (content f)) →
  (∃ old, old ∈ allExercises (content f) ∧ e_id old = originalId) →
  ∃ doc',
    saveExercise localeCompare blobSha interleaved req st
    = (Status200 (Updated bn),
       {| remote := Some {| content := doc'; sha := blobSha doc' |};
          commits := MsgUpdate bn :: commits (interleaved st) |})
    ∧ (NoDup (documentIds doc')
       ↔ bid ∉ processedVariations ≫= variationIds).
Proof.
  intros Hbasic Hf Hsha Hmode Horig Hne Hbase Hpv Htoken Hdoc (old0 & Hin & Hold0).
  pose proof (saveExercise_validated localeCompare blobSha interleaved
                _ _ _ _ _ _ _ _ _ Hbasic Hf Hsha Hbase Hpv) as Hrun.
  cbn zeta in Hrun.
  rewrite (isEdit_true _ _ Hmode Horig Hne), Horig in Hrun.
  change (default "" (Some originalId)) with originalId in Hrun.
  destruct (replaceOriginal originalId _ (content f)) as [data|] eqn:Hrep.
  2:{ apply replaceOriginal_None in Hrep.
      rewrite Forall_forall in Hrep. by destruct (Hrep _ Hin). }
  apply replaceOriginal_Some in Hrep
    as (l1 & old & l2 & Hcontent & Hold & Hl1 & Hdata).
  rewrite (commit_applies_token blobSha _ _ tok) in Hrun
    by (rewrite Htoken; unfold tokenOf; by rewrite Hf, <-Hsha).
  eexists. split; [exact Hrun|].
  unfold documentIds in *.
  rewrite allExercises_sortAll, Hdata, <-Permutation_middle.
  rewrite Hcontent in Hdoc.
  rewrite bind_app, bind_cons in Hdoc.
  apply NoDup_app in Hdoc as (Hn1 & Hdisj1 & (Hnold & Hdisj2 & Hn2)%NoDup_app).
  eapply new_exercise_NoDup; [| |by apply bool_decide_eq_false in Hbase
                              |exact Hpv].
  - rewrite bind_app. apply NoDup_app. split; [done|]. split; [|done].
    intros x Hx1 Hx2. apply (Hdisj1 x Hx1), elem_of_app. by right.
  - intros x (item & Hx & Hitem)%list_elem_of_bind.
    apply collectAllIds_spec. exists item. split.
    { rewrite Hcontent.
      apply elem_of_app in Hitem as [?|?]; apply elem_of_app;
        [by left|right; by apply list_elem_of_further]. }
    split; [|done]. right. rewrite Horig. intros [= Heq].
    apply elem_of_app in Hitem as [Hitem|Hitem].
    + rewrite Forall_forall in Hl1. by apply (Hl1 _ Hitem).
    + apply (Hdisj2 originalId).
      * rewrite <-Hold. apply e_id_in_exerciseIds.
      * apply list_elem_of_bind. exists item. split; [|done].
        rewrite Heq. apply e_id_in_exerciseIds.
Qed.

End uniqueness_claims.

(** X6, witness: the submitted variation carries the base id [press]; the
    committed document holds that id twice. *)
Lemma addition_keeps_ids_unique_witness :
  let req := addRequest "T1" "Chest" "press" "Press"
               (Some [rawNode "press" "Flat"]) in
  let st := storeAt "T1" gymDocument in
  basicValidation req = Some ("Chest", "press", "Press", "T1")
  ∧ NoDup (documentIds gymDocument)
  ∧ ∃ doc',
      saveExercise caseFoldCompare sampleSha id req st
      = (Status200 (Added "Press" "Chest"),
         {| remote := Some {| content := doc'; sha := sampleSha doc' |};
            commits := [MsgAdd "Press"] |})
      ∧ ¬ NoDup (documentIds doc').
Proof.
  intros req st.
  assert (NoDup (documentIds gymDocument)) as Hdoc by compute_done.
  split; [reflexivity|]. split; [exact Hdoc|].
  edestruct (addition_keeps_ids_unique caseFoldCompare sampleSha id req st
               {| content := gymDocument; sha := "T1" |})
    as (doc' & Hrun & Hiff);
    [by vm_compute..|exact Hdoc|].
  exists doc'. split; [exact Hrun|].
  intros Hnodup. apply Hiff in Hnodup. apply Hnodup.
  apply list_elem_of_In. vm_compute. tauto.
Defined.

(** X7, witness: the exercise [squat] is renamed to [back-squat] and keeps
    its variation [front-squat]. *)
Lemma update_keeps_ids_unique_witness :
  let req := updateRequest "T1" "squat" "Legs" "back-squat" "Back squat"
               (Some [rawNode "front-squat" "Front"]) in
  let st := storeAt "T1" gymDocument in
  basicValidation req = Some ("Legs", "back-squat", "Back squat", "T1")
  ∧ NoDup (documentIds gymDocument)
  ∧ (∃ old, old ∈ allExercises gymDocument ∧ e_id old = "squat")
  ∧ ∃ doc',
      saveExercise caseFoldCompare sampleSha id req st
      = (Status200 (Updated "Back squat"),
         {| remote := Some {| content := doc'; sha := sampleSha doc' |};
            commits := [MsgUpdate "Back squat"] |})
      ∧ NoDup (documentIds doc').
Proof.
  intros req st.
  assert (NoDup (documentIds gymDocument)) as Hdoc by compute_done.
  assert (∃ old, old ∈ allExercises gymDocument ∧ e_id old = "squat") as Hold.
  { exists {| e_id := "squat"; e_name := "Squat";
              e_variations := Some [leafNode "front-squat" "Front"] |}.
    split; [|reflexivity]. apply list_elem_of_In. simpl. tauto. }
  split; [reflexivity|]. split; [exact Hdoc|]. split; [exact Hold|].
  edestruct (update_keeps_ids_unique caseFoldCompare sampleSha id req st
               {| content := gymDocument; sha := "T1" |})
    as (doc' & Hrun & Hiff);
    [by vm_compute..|exact Hdoc|exact Hold|].
  exists doc'. split; [exact Hrun|].
  apply Hiff. intros Hin. apply list_elem_of_In in Hin. vm_compute in Hin.
  by destruct Hin as [Hin|[]].
Defined.

(** ** Writes, tokens and responses *)

Section write_claims.
Variable localeCompare : string → string → Z.
Variable blobSha : Document → string.

(** Every way the handler ends, with what it leaves in the store. *)
Lemma saveExercise_outcome interleaved req st :
  let r := (saveExercise localeCompare blobSha interleaved req st).1 in
  let st' := (saveExercise localeCompare blobSha interleaved req st).2 in
  (∃ m data f,
     r = Status200 m ∧ remote st = Some f ∧ fileSha req = Some (sha f)
     ∧ tokenOf (interleaved st) = Some (sha f)
     ∧ st' = {| remote := Some {| content := sortAll localeCompare data;
                                  sha := blobSha (sortAll localeCompare data) |};
                commits := messageOf m :: commits (interleaved st) |})
  ∨ ((r = Status409 ∨ r = Status500 ∨ ∃ m, r = Status400 m) ∧ st' = st)
  ∨ (r = Status500 ∧ st' = interleaved st).
Proof.
  cbn zeta. unfold saveExercise.
  destruct (basicValidation req) as [[[[g bid] bn] tok]|] eqn:Hbasic;
    [|right; left; eauto 6].
  apply basicValidation_Some in Hbasic as (_ & _ & _ & Htok & _).
  unfold saveExerciseTry, getExerciseDataFromGithub.
  destruct (remote st) as [f|] eqn:Hf; [|right; left; eauto 6].
  case_bool_decide as Hsha; cbn [negb]; [|right; left; eauto 6].
  destruct (has _ bid); [right; left; eauto 6|].
  destruct (processVariations _ _ _) as [[pv s']|e]; [|right; left; eauto 6].
  cbn zeta.
  assert (∀ m data,
    let res :=
      match createOrUpdateFileContents blobSha (messageOf m)
              (sortAll localeCompare data) (sha f) (interleaved st) with
      | Some st' => (Responded (Status200 m), st')
      | None => (Thrown CommitRejected, interleaved st)
      end in
    let out := match res with
               | (Responded r, st') => (r, st')
               | (Thrown _, st') => (Status500, st')
               end in
    (∃ m data f0,
       out.1 = Status200 m ∧ Some f = Some f0 ∧ fileSha req = Some (sha f0)
       ∧ tokenOf (interleaved st) = Some (sha f0)
       ∧ out.2 = {| remote := Some {| content := sortAll localeCompare data;
                                      sha := blobSha (sortAll localeCompare data) |};
                    commits := messageOf m :: commits (interleaved st) |})
    ∨ ((out.1 = Status409 ∨ out.1 = Status500 ∨ ∃ m, out.1 = Status400 m)
       ∧ out.2 = st)
    ∨ (out.1 = Status500 ∧ out.2 = interleaved st)) as Hcommit.
  { intros m data. cbn zeta. unfold createOrUpdateFileContents, tokenOf.
    destruct (remote (interleaved st)) as [f2|] eqn:Hf2;
      [|right; right; by split].
    case_bool_decide as Hsha2; [|right; right; by split].
    left. exists m, data, f. cbn [fst snd fmap option_fmap option_map].
    rewrite Htok, Hsha2, Hsha. by repeat split. }
  destruct (isEdit req).
  - destruct (replaceOriginal _ _ (content f)) as [data|];
      [|right; left; eauto 6].
    apply (Hcommit (Updated bn) data).
  - apply (Hcommit (Added bn g)).
Qed.

(** X8.  The handler writes the store on success only.  With the success
    page goes exactly one commit of a sorted document, under the message of
    the intent; every other answer, the 400 of a validation failure, the 409
    or the 500, leaves the store as this request found it, or as the other
    writers left it when it is their write that made the commit fail. *)
Theorem store_written_only_on_success interleaved req st :
  let r := (saveExercise localeCompare blobSha interleaved req st).1 in
  let st' := (saveExercise localeCompare blobSha interleaved req st).2 in
  (∃ m data,
     r = Status200 m
     ∧ st' = {| remote := Some {| content := sortAll localeCompare data;
                                  sha := blobSha (sortAll localeCompare data) |};
                commits := messageOf m :: commits (interleaved st) |})
  ∨ ((∀ m, r ≠ Status200 m) ∧ (st' = st ∨ st' = interleaved st)).
Proof.
  cbn zeta.
  destruct (saveExercise_outcome interleaved req st)
    as [(m & data & f & Hr & _ & _ & _ & Hst)
       |[[Hr Hst]|[Hr Hst]]].
  - left. by exists m, data.
  - right. split; [|by left].
    intros m Hm. rewrite Hm in Hr.
    by destruct Hr as [?|[?|[? ?]]].
  - right. split; [|by right]. intros m Hm. by rewrite Hm in Hr.
Qed.

(** X9.  A write succeeds only if the token the request presents is the
    token the store reported when the handler read it, and is still the
    token of the store when the commit is made. *)
Theorem success_needs_matching_tokens interleaved req st m st' :
  saveExercise localeCompare blobSha interleaved req st = (Status200 m, st') →
  fileSha req = tokenOf st ∧ tokenOf (interleaved st) = tokenOf st
  ∧ is_Some (tokenOf st).
Proof.
  intros Hrun.
  destruct (saveExercise_outcome interleaved req st)
    as [(m' & data & f & _ & Hf & Htok & Hcommit & _)
       |[[Hr _]|[Hr _]]];
    [|rewrite Hrun in Hr; cbn [fst] in Hr..].
  - rewrite Htok, Hcommit. unfold tokenOf. rewrite Hf. cbn. by eauto.
  - by destruct Hr as [?|[?|[? ?]]].
  - done.
Qed.

(** X10.  Two requests that present the same token: once the first has
    succeeded and the committed content has another blob sha, the second,
    if its fields pass the basic validation, is answered with the Conflict
    and writes nothing. *)
Theorem second_writer_gets_conflict interleaved1 interleaved2 req1 req2 st m st1 :
  saveExercise localeCompare blobSha interleaved1 req1 st = (Status200 m, st1) →
  fileSha req2 = fileSha req1 →
  is_Some (basicValidation req2) →
  tokenOf st1 ≠ tokenOf st →
  saveExercise localeCompare blobSha interleaved2 req2 st1 = (Status409, st1).
Proof.
  intros Hrun Hsame [[[[g bid] bn] tok] Hbasic] Hnew.
  destruct (saveExercise_outcome interleaved1 req1 st)
    as [(m' & data & f & _ & Hf & Htok & _ & Hst)
       |[[Hr _]|[Hr _]]];
    [rewrite Hrun in Hst; cbn [snd] in Hst
    |rewrite Hrun in Hr; cbn [fst] in Hr..].
  2:{ by destruct Hr as [?|[?|[? ?]]]. }
  2:{ done. }
  unfold saveExercise. rewrite Hbasic.
  apply basicValidation_Some in Hbasic as (_ & _ & _ & Htok2 & _).
  unfold saveExerciseTry, getExerciseDataFromGithub. rewrite Hst.
  cbn [remote content sha].
  rewrite bool_decide_eq_false_2; [done|].
  intros Heq. apply Hnew. unfold tokenOf. rewrite Hst, Hf. cbn.
  rewrite Heq. congruence.
Qed.

(** X11.  A write that lands between the read of this request and its
    commit: a request that is through every check is then answered with the
    500 of the failed commit, not with the Conflict, and its document is not
    written. *)
Theorem interleaved_write_gives_500 interleaved req st f g bid bn tok
    processedVariations s' :
  basicValidation req = Some (g, bid, bn, tok) →
  remote st = Some f →
  sha f = tok →
  has (collectAllIds (editMode req) (originalBaseId req) (content f)) bid
  = false →
  processVariations (variations req) Variacion
    (collectAllIds (editMode req) (originalBaseId req) (content f))
  = Ok (processedVariations, s') →
  tokenOf (interleaved st) ≠ tokenOf st →
  saveExercise localeCompare blobSha interleaved req st
  = (Status500, interleaved st)
  ∨ saveExercise localeCompare blobSha interleaved req st = (Status500, st).
Proof.
  intros Hbasic Hf Hsha Hbase Hpv Htoken.
  rewrite (saveExercise_validated localeCompare blobSha interleaved
             _ _ _ _ _ _ _ _ _ Hbasic Hf Hsha Hbase Hpv).
  cbn zeta.
  assert (∀ message data,
    createOrUpdateFileContents blobSha message data tok (interleaved st) = None)
    as Hreject.
  { intros message data. unfold createOrUpdateFileContents.
    destruct (remote (interleaved st)) as [f2|] eqn:Hf2; [|done].
    rewrite bool_decide_eq_false_2; [done|]. intros Heq. apply Htoken.
    unfold tokenOf. rewrite Hf2, Hf. cbn. congruence. }
  destruct (isEdit req).
  - destruct (replaceOriginal _ _ _); [|by right]. rewrite Hreject. by left.
  - rewrite Hreject. by left.
Qed.

(** X12.  An update does not read the submitted group.  With any other
    non-empty group in the request the response and the store are the same:
    the exercise stays in the group that holds the original, a move to
    another group is not done. *)
Theorem update_ignores_group interleaved req st g' :
  isEdit req = true →
  Js.truthy (group req) = true →
  Js.truthyString g' = true →
  saveExercise localeCompare blobSha interleaved (withGroup req g') st
  = saveExercise localeCompare blobSha interleaved req st.
Proof.
  intros Hedit Hgroup Hg'.
  assert (isEdit (withGroup req g') = true) as Hedit' by exact Hedit.
  unfold saveExercise, basicValidation. cbn [withGroup group baseId baseName fileSha].
  destruct (group req) as [g|]; [|done]. cbn in Hgroup. rewrite Hgroup, Hg'.
  destruct (baseId req) as [bid|]; [|done].
  destruct (baseName req) as [bn|]; [|done].
  destruct (fileSha req) as [tok|]; [|done].
  cbn [negb orb].
  destruct (_ || _); [done|].
  unfold saveExerciseTry.
  cbn [withGroup editMode originalBaseId variations].
  rewrite Hedit, Hedit'. reflexivity.
Qed.

End write_claims.

(** X9, witness: the bench press request against an empty document. *)
Lemma success_needs_matching_tokens_witness :
  let req := addRequest "T1" "Chest" "bench-press" "Bench Press" None in
  let st := storeAt "T1" [] in
  (saveExercise caseFoldCompare sampleSha id req st).1
  = Status200 (Added "Bench Press" "Chest")
  ∧ fileSha req = tokenOf st ∧ tokenOf (id st) = tokenOf st.
Proof.
  intros req st.
  destruct (saveExercise caseFoldCompare sampleSha id req st) as [r st'] eqn:Hrun.
  assert (r = Status200 (Added "Bench Press" "Chest")) as ->
    by (by vm_compute in Hrun; injection Hrun as <- _).
  destruct (success_needs_matching_tokens caseFoldCompare sampleSha id req st
              _ _ Hrun) as (Hreq & Hcommit & _).
  by split.
Defined.

(** X10, witness: two additions that present the token T1. *)
Lemma second_writer_gets_conflict_witness :
  let req1 := addRequest "T1" "Chest" "bench-press" "Bench Press" None in
  let req2 := addRequest "T1" "Legs" "squat" "Squat" None in
  let st := storeAt "T1" [] in
  ∃ st1,
    saveExercise caseFoldCompare sampleSha id req1 st
    = (Status200 (Added "Bench Press" "Chest"), st1)
    ∧ tokenOf st1 ≠ tokenOf st
    ∧ saveExercise caseFoldCompare sampleSha id req2 st1 = (Status409, st1).
Proof.
  intros req1 req2 st.
  destruct (saveExercise caseFoldCompare sampleSha id req1 st) as [r st1] eqn:Hrun.
  assert (r = Status200 (Added "Bench Press" "Chest")) as ->
    by (by vm_compute in Hrun; injection Hrun as <- _).
  assert (tokenOf st1 ≠ tokenOf st) as Hnew
    by (by vm_compute in Hrun; injection Hrun as <-).
  assert (is_Some (basicValidation req2)) as Hbasic by (eexists; reflexivity).
  exists st1. split; [reflexivity|]. split; [exact Hnew|].
  exact (second_writer_gets_conflict caseFoldCompare sampleSha id id req1 req2
           st _ st1 Hrun eq_refl Hbasic Hnew).
Defined.

(** X11, witness: another writer replaces the file, under the token T2,
    while the bench press request is being handled. *)
Lemma interleaved_write_gives_500_witness :
  let req := addRequest "T1" "Chest" "bench-press" "Bench Press" None in
  let st := storeAt "T1" [] in
  let other := λ _ : Store, storeAt "T2" gymDocument in
  tokenOf (other st) ≠ tokenOf st
  ∧ saveExercise caseFoldCompare sampleSha other req st
    = (Status500, storeAt "T2" gymDocument).
Proof.
  intros req st other.
  assert (tokenOf (other st) ≠ tokenOf st) as Htoken by discriminate.
  split; [exact Htoken|].
  edestruct (interleaved_write_gives_500 caseFoldCompare sampleSha other req st
               {| content := []; sha := "T1" |}) as [Hrun|Hrun];
    [by vm_compute..|exact Htoken|exact Hrun|].
  rewrite Hrun. by vm_compute in Hrun.
Defined.

(** X12, witness: the update of [squat] with the group [Arms] instead of
    [Legs]. *)
Lemma update_ignores_group_witness :
  let req := updateRequest "T1" "squat" "Legs" "back-squat" "Back squat"
               (Some [rawNode "front-squat" "Front"]) in
  let st := storeAt "T1" gymDocument in
  isEdit req = true
  ∧ withGroup req "Arms"
    = updateRequest "T1" "squat" "Arms" "back-squat" "Back squat"
        (Some [rawNode "front-squat" "Front"])
  ∧ saveExercise caseFoldCompare sampleSha id (withGroup req "Arms") st
    = saveExercise caseFoldCompare sampleSha id req st
  ∧ g_group <$> default [] (content <$> remote
       (saveExercise caseFoldCompare sampleSha id (withGroup req "Arms") st).2)
    = ["Back"; "Legs"].
Proof.
  intros req st.
  split; [reflexivity|]. split; [reflexivity|].
  pose proof (update_ignores_group caseFoldCompare sampleSha id req st "Arms"
                eq_refl eq_refl eq_refl) as Hsame.
  split; [exact Hsame|]. by vm_compute.
Defined.

(** ** Additions: the group and the base id *)

Lemma findIndex_app {A} (p : A → bool) l1 y l2 :
  Forall (λ x, p x = false) l1 → p y = true →
  findIndex p (l1 ++ y :: l2) = Some (length l1).
Proof.
  intros Hl1 Hy. induction Hl1 as [|x l1 Hx _ IH]; simpl; [by rewrite Hy|].
  by rewrite Hx, IH.
Qed.

Lemma pushToGroup_found group ex (l1 : list Group) gi l2 :
  Forall (λ g, Js.toLowerCase (g_group g) ≠ Js.toLowerCase group) l1 →
  Js.toLowerCase (g_group gi) = Js.toLowerCase group →
  pushToGroup group ex (l1 ++ gi :: l2)
  = l1 ++ {| g_group := g_group gi; g_items := g_items gi ++ [ex] |} :: l2.
Proof.
  intros Hl1 Hgi. unfold pushToGroup.
  rewrite (findIndex_app _ l1 gi l2).
  - replace (length l1) with (length l1 + 0)%nat by lia.
    by rewrite alter_app_r.
  - eapply Forall_impl; [exact Hl1|]. intros g.
    by rewrite bool_decide_eq_false.
  - by apply bool_decide_eq_true.
Qed.

Section addition_claims.
Variable localeCompare : string → string → Z.
Variable blobSha : Document → string.

Lemma groupNames_sortAll (doc : Document) :
  g_group <$> sortAll localeCompare doc ≡ₚ g_group <$> doc.
Proof.
  unfold sortAll. rewrite <-list_fmap_compose.
  trans (g_group <$> sort (byGroup localeCompare) doc); [done|].
  by rewrite sort_Permutation.
Qed.

(** X13.  An addition whose group matches a group of the document when
    both are lower-cased, on a request that is through every check and
    commits with no other write in between: the exercise is pushed at the
    end of the items of the first such group, which keeps the spelling of
    its name; the document is then sorted, and it has the group names it had
    before. *)
Theorem addition_joins_first_matching_group interleaved req st f g bid bn tok
    processedVariations s' l1 gi l2 :
  basicValidation req = Some (g, bid, bn, tok) →
  remote st = Some f →
  sha f = tok →
  isEdit req = false →
  has (collectAllIds (editMode req) (originalBaseId req) (content f)) bid
  = false →
  processVariations (variations req) Variacion
    (collectAllIds (editMode req) (originalBaseId req) (content f))
  = Ok (processedVariations, s') →
  tokenOf (interleaved st) = tokenOf st →
  content f = l1 ++ gi :: l2 →
  Forall (λ g', Js.toLowerCase (g_group g') ≠ Js.toLowerCase g) l1 →
  Js.toLowerCase (g_group gi) = Js.toLowerCase g →
  let new := exerciseObject localeCompare bid bn processedVariations in
  let doc' :=
    sortAll localeCompare
      (l1 ++ {| g_group := g_group gi; g_items := g_items gi ++ [new] |} :: l2) in
  saveExercise localeCompare blobSha interleaved req st
  = (Status200 (Added bn g),
     {| remote := Some {| content := doc'; sha := blobSha doc' |};
        commits := MsgAdd bn :: commits (interleaved st) |})
  ∧ g_group <$> doc' ≡ₚ g_group <$> content f.
Proof.
  intros Hbasic Hf Hsha Hcreate Hbase Hpv Htoken Hcontent Hl1 Hgi new doc'.
  pose proof (saveExercise_validated localeCompare blobSha interleaved
                _ _ _ _ _ _ _ _ _ Hbasic Hf Hsha Hbase Hpv) as Hrun.
  cbn zeta in Hrun. fold new in Hrun. rewrite Hcreate in Hrun.
  rewrite (commit_applies_token blobSha _ _ tok) in Hrun
    by (rewrite Htoken; unfold tokenOf; by rewrite Hf, <-Hsha).
  rewrite Hcontent, (pushToGroup_found _ _ _ _ _ Hl1 Hgi) in Hrun.
  split; [exact Hrun|].
  unfold doc'. rewrite groupNames_sortAll, Hcontent, !fmap_app, !fmap_cons.
  done.
Qed.

(** X1.  An addition that passes the check of the base id although a
    top-level exercise of the document has this id.  This happens only when
    [editMode] is a non-empty string other than ['true'] and
    [originalBaseId] is the submitted base id: the uniqueness check leaves
    that exercise out, as for an update, while the request is processed as
    an addition.  The committed document then holds the id on two top-level
    exercises. *)
Theorem excluded_id_added_twice interleaved req st f g bid bn tok
    processedVariations s' old :
  basicValidation req = Some (g, bid, bn, tok) →
  remote st = Some f →
  sha f = tok →
  isEdit req = false →
  has (collectAllIds (editMode req) (originalBaseId req) (content f)) bid
  = false →
  processVariations (variations req) Variacion
    (collectAllIds (editMode req) (originalBaseId req) (content f))
  = Ok (processedVariations, s') →
  tokenOf (interleaved st) = tokenOf st →
  old ∈ allExercises (content f) →
  e_id old = bid →
  Js.truthy (editMode req) = true
  ∧ editMode req ≠ Some "true"
  ∧ originalBaseId req = Some bid
  ∧ ∃ doc',
      saveExercise localeCompare blobSha interleaved req st
      = (Status200 (Added bn g),
         {| remote := Some {| content := doc'; sha := blobSha doc' |};
            commits := MsgAdd bn :: commits (interleaved st) |})
      ∧ ¬ NoDup (e_id <$> allExercises doc').
Proof.
  intros Hbasic Hf Hsha Hcreate Hbase Hpv Htoken Hold Hid.
  assert (Js.truthy (editMode req) = true ∧ originalBaseId req = Some bid)
    as [Hmode Horig].
  { apply bool_decide_eq_false in Hbase.
    destruct (Js.truthy (editMode req)) eqn:Hmode.
    - split; [done|].
      destruct (decide (originalBaseId req = Some bid)) as [|Hne]; [done|].
      destruct Hbase. apply collectAllIds_spec. exists old.
      split; [done|]. split; [right; by rewrite Hid|].
      rewrite <-Hid. apply e_id_in_exerciseIds.
    - destruct Hbase. apply collectAllIds_spec. exists old.
      split; [done|]. split; [by left|].
      rewrite <-Hid. apply e_id_in_exerciseIds. }
  split; [done|]. split.
  { intros Htrue. unfold isEdit in Hcreate.
    rewrite Htrue, Horig in Hcreate.
    apply basicValidation_Some in Hbasic as (_ & _ & _ & _ & _ & _ & Hpat).
    by destruct bid. }
  split; [done|].
  pose proof (saveExercise_validated localeCompare blobSha interleaved
                _ _ _ _ _ _ _ _ _ Hbasic Hf Hsha Hbase Hpv) as Hrun.
  cbn zeta in Hrun. rewrite Hcreate in Hrun.
  rewrite (commit_applies_token blobSha _ _ tok) in Hrun
    by (rewrite Htoken; unfold tokenOf; by rewrite Hf, <-Hsha).
  eexists. split; [exact Hrun|].
  rewrite allExercises_sortAll, allExercises_pushToGroup, fmap_cons.
  intros [Hnot _]%NoDup_cons. apply Hnot.
  cbn [e_id exerciseObject]. rewrite <-Hid.
  apply list_elem_of_fmap. eauto.
Qed.

End addition_claims.

(** X13, witness: an exercise is added to the group [legs], which the
    document spells [Legs]. *)
Lemma addition_joins_first_matching_group_witness :
  let req := addRequest "T1" "legs" "calf-raise" "Calf raise" None in
  let st := storeAt "T1" gymDocument in
  basicValidation req = Some ("legs", "calf-raise", "Calf raise", "T1")
  ∧ g_group <$> default [] (content <$> remote
       (saveExercise caseFoldCompare sampleSha id req st).2)
    = ["Back"; "Legs"]
  ∧ e_id <$> allExercises (default [] (content <$> remote
       (saveExercise caseFoldCompare sampleSha id req st).2))
    = ["row"; "calf-raise"; "lunge"; "squat"].
Proof.
  intros req st.
  split; [reflexivity|].
  edestruct (addition_joins_first_matching_group caseFoldCompare sampleSha id
               req st {| content := gymDocument; sha := "T1" |})
    with (l1 := [ {| g_group := "Back";
                     g_items := [ {| e_id := "row"; e_name := "Row";
                                     e_variations := None |} ] |} ])
         (gi := {| g_group := "Legs";
                   g_items := [ {| e_id := "lunge"; e_name := "Lunge";
                                   e_variations := None |};
                                {| e_id := "squat"; e_name := "Squat";
                                   e_variations :=
                                     Some [leafNode "front-squat" "Front"] |} ] |})
         (l2 := @nil Group) as [Hrun _];
    [by vm_compute..|by repeat constructor|reflexivity|].
  rewrite Hrun. by vm_compute.
Defined.

(** X1, witness: [editMode] is [1], and the id [squat] of the document is
    submitted again as the base id. *)
Lemma excluded_id_added_twice_witness :
  let req := {| editMode := Some "1"; originalBaseId := Some "squat";
                fileSha := Some "T1"; group := Some "Legs";
                baseId := Some "squat"; baseName := Some "Squat";
                variations := None |} in
  let st := storeAt "T1" legsDocument in
  isEdit req = false
  ∧ has (collectAllIds (editMode req) (originalBaseId req) legsDocument) "squat"
    = false
  ∧ ∃ doc',
      saveExercise caseFoldCompare sampleSha id req st
      = (Status200 (Added "Squat" "Legs"),
         {| remote := Some {| content := doc'; sha := sampleSha doc' |};
            commits := [MsgAdd "Squat"] |})
      ∧ ¬ NoDup (e_id <$> allExercises doc').
Proof.
  intros req st.
  split; [reflexivity|]. split; [by vm_compute|].
  edestruct (excluded_id_added_twice caseFoldCompare sampleSha id req st
               {| content := legsDocument; sha := "T1" |})
    with (old := {| e_id := "squat"; e_name := "Squat";
                    e_variations := Some [leafNode "front-squat" "Front"] |})
    as (_ & _ & _ & doc' & Hrun & Hdup);
    [by vm_compute..|apply list_elem_of_here|reflexivity|].
  by exists doc'.
Defined.

(** ** The first write route, [POST /add-exercise] *)

Lemma idExists_spec baseId (doc : Document) :
  idExists baseId doc = true ↔
  ∃ item, item ∈ allExercises doc ∧ e_id item = baseId.
Proof.
  unfold idExists. rewrite existsb_exists. split.
  - intros (g & Hg%list_elem_of_In & (item & Hitem%list_elem_of_In
            & Hid%bool_decide_eq_true)%existsb_exists).
    exists item. split; [|done]. apply list_elem_of_bind. eauto.
  - intros (item & (g & Hitem & Hg)%list_elem_of_bind & Hid).
    exists g. split; [by apply list_elem_of_In|].
    apply existsb_exists. exists item.
    split; [by apply list_elem_of_In|by apply bool_decide_eq_true].
Qed.

Lemma allExercises_findOrPushGroup group (doc : Document) :
  allExercises (findOrPushGroup group doc).1 = allExercises doc.
Proof.
  unfold findOrPushGroup. destruct (findIndex _ doc); [done|].
  cbn [fst]. rewrite allExercises_app. cbn. by rewrite app_nil_r.
Qed.

Lemma alter_findOrPushGroup group ex (doc : Document) :
  alter (λ g, {| g_group := g_group g; g_items := g_items g ++ [ex] |})
        (findOrPushGroup group doc).2 (findOrPushGroup group doc).1
  = pushToGroup group ex doc.
Proof. unfold findOrPushGroup, pushToGroup. by destruct (findIndex _ doc). Qed.

Lemma allExercises_alter (f : Group → Group) i (doc : Document) :
  (∀ g, g_items (f g) ≡ₚ g_items g) →
  allExercises (alter f i doc) ≡ₚ allExercises doc.
Proof.
  intros Hf. revert i. induction doc as [|g doc IH]; intros i; [done|].
  destruct i as [|i]; cbn [alter list_alter]; rewrite !allExercises_cons.
  - by rewrite Hf.
  - by rewrite <-(IH i).
Qed.





Section first_route_claims.
Variable localeCompare : string → string → Z.
Variable blobSha : Document → string.

Lemma allExercises_pushAndSort group baseId baseName (doc : Document) :
  allExercises
    (pushAndSort localeCompare baseId baseName
       (findOrPushGroup group doc).2 (findOrPushGroup group doc).1)
  ≡ₚ {| e_id := baseId; e_name := baseName; e_variations := Some [] |}
     :: allExercises doc.
Proof.
  unfold pushAndSort. cbn zeta.
  rewrite allExercises_alter by (intros g0; cbn; apply sort_Permutation).
  unfold allExercises at 1. rewrite sort_Permutation.
  fold (allExercises (alter
    (λ g0, {| g_group := g_group g0;
              g_items := g_items g0
                ++ [{| e_id := baseId; e_name := baseName;
                       e_variations := Some [] |}] |})
    (findOrPushGroup group doc).2 (findOrPushGroup group doc).1)).
  rewrite alter_findOrPushGroup. apply allExercises_pushToGroup.
Qed.

(** X14.  The first write route rejects an id exactly when a top-level
    exercise of the document has it: for a request whose fields pass its
    basic validation, against a store that holds the file, the answer is the
    400 of the existing id if and only if some top-level exercise has the
    submitted id.  The ids of variations and of what is below them are not
    looked at. *)
Theorem first_route_checks_top_level_ids interleaved req st f g bid bn :
  addValidation req = Some (g, bid, bn) →
  remote st = Some f →
  addExercise localeCompare blobSha interleaved req st = (AddIdExists bid, st)
  ↔ ∃ item, item ∈ allExercises (content f) ∧ e_id item = bid.
Proof.
  intros Hvalid Hf. unfold addExercise. rewrite Hvalid, Hf.
  rewrite <-(allExercises_findOrPushGroup g (content f)), <-idExists_spec.
  destruct (findOrPushGroup g (content f)) as [data i]. cbn [fst].
  destruct (idExists bid data) eqn:Hexists; [done|].
  split; [|done].
  by destruct (createOrUpdateFileContents _ _ _ _ _).
Qed.

(** X15.  An addition through the first write route, for an id that no
    top-level exercise has, with no other write landing before the commit:
    the answer is the success page, one commit is made, and the committed
    document holds the exercises it held plus the new one, which carries the
    submitted id and name and an empty [variations] array, whatever else the
    request held; its groups are sorted by name. *)
Theorem first_route_adds_exercise interleaved req st f g bid bn :
  addValidation req = Some (g, bid, bn) →
  remote st = Some f →
  (∀ item, item ∈ allExercises (content f) → e_id item ≠ bid) →
  tokenOf (interleaved st) = tokenOf st →
  ∃ doc',
    addExercise localeCompare blobSha interleaved req st
    = (AddSaved bn,
       {| remote := Some {| content := doc'; sha := blobSha doc' |};
          commits := MsgAdd bn :: commits (interleaved st) |})
    ∧ allExercises doc'
      ≡ₚ {| e_id := bid; e_name := bn; e_variations := Some [] |}
         :: allExercises (content f).
Proof.
  intros Hvalid Hf Hfree Htoken. unfold addExercise. rewrite Hvalid, Hf.
  pose proof (allExercises_pushAndSort g bid bn (content f)) as Hperm.
  pose proof (allExercises_findOrPushGroup g (content f)) as Hsame.
  destruct (findOrPushGroup g (content f)) as [data i]. cbn [fst snd] in *.
  assert (idExists bid data = false) as ->.
  { apply not_true_is_false. intros (item & Hitem & Hid)%idExists_spec.
    rewrite Hsame in Hitem. by apply (Hfree item). }
  rewrite (commit_applies_token blobSha _ _ (sha f))
    by (rewrite Htoken; unfold tokenOf; by rewrite Hf).
  eexists. split; [reflexivity|exact Hperm].
Qed.

Hypothesis localeCompare_total :
  ∀ a b, localeCompare a b <= 0 ∨ localeCompare b a <= 0.
Hypothesis localeCompare_trans :
  ∀ a b c, localeCompare a b <= 0 → localeCompare b c <= 0 →
           localeCompare a c <= 0.


End first_route_claims.

(** X14, witness: the id [front-squat] belongs to a variation of the
    document, not to a top-level exercise, and the first route accepts it as
    the id of a new exercise. *)
Lemma first_route_checks_top_level_ids_witness :
  let req := addRequest "T1" "Legs" "front-squat" "Front squat" None in
  let st := storeAt "T1" gymDocument in
  addValidation req = Some ("Legs", "front-squat", "Front squat")
  ∧ "front-squat" ∈ documentIds gymDocument
  ∧ (addExercise caseFoldCompare sampleSha id req st).1
    = AddSaved "Front squat"
  ∧ ¬ ∃ item, item ∈ allExercises gymDocument ∧ e_id item = "front-squat".
Proof.
  intros req st.
  pose proof (first_route_checks_top_level_ids caseFoldCompare sampleSha id
                req st {| content := gymDocument; sha := "T1" |}
                "Legs" "front-squat" "Front squat" eq_refl eq_refl) as Hiff.
  split; [reflexivity|]. split; [apply list_elem_of_In; vm_compute; tauto|].
  split; [by vm_compute|].
  intros Hex. apply Hiff in Hex. by vm_compute in Hex.
Defined.

(** X15, witness: an exercise is added to the group [legs] of the example
    document. *)
Lemma first_route_adds_exercise_witness :
  let req := addRequest "T1" "legs" "calf-raise" "Calf raise"
               (Some [rawNode "seated" "Seated"]) in
  let st := storeAt "T1" gymDocument in
  addValidation req = Some ("legs", "calf-raise", "Calf raise")
  ∧ ∃ doc',
      addExercise caseFoldCompare sampleSha id req st
      = (AddSaved "Calf raise",
         {| remote := Some {| content := doc'; sha := sampleSha doc' |};
            commits := [MsgAdd "Calf raise"] |})
      ∧ allExercises doc'
        ≡ₚ {| e_id := "calf-raise"; e_name := "Calf raise";
              e_variations := Some [] |} :: allExercises gymDocument.
Proof.
  intros req st. split; [reflexivity|].
  apply (first_route_adds_exercise caseFoldCompare sampleSha id req st
           {| content := gymDocument; sha := "T1" |}
           "legs" "calf-raise" "Calf raise" eq_refl eq_refl);
    [|reflexivity].
  intros item Hitem%list_elem_of_In Hid. vm_compute in Hitem.
  destruct Hitem as [<-|[<-|[<-|[]]]]; discriminate.
Defined.


(** ** Reading after writing *)

Section read_claims.
Variable localeCompare : string → string → Z.
Variable blobSha : Document → string.

(** X17.  After a successful write, [GET /api/exercises] answers with the
    committed document and its new token, and a request that presents this
    token to the store as it is then is not answered with the Conflict,
    whatever else it holds. *)
Theorem read_after_write interleaved req st m st1 :
  saveExercise localeCompare blobSha interleaved req st = (Status200 m, st1) →
  ∃ doc',
    apiExercises st1 = ApiData doc' (blobSha doc')
    ∧ ∀ interleaved2 req2,
        fileSha req2 = Some (blobSha doc') →
        (saveExercise localeCompare blobSha interleaved2 req2 st1).1
        ≠ Status409.
Proof.
  intros (data & Hremote)%saveExercise_200.
  exists (sortAll localeCompare data).
  unfold apiExercises, getExerciseDataFromGithub. rewrite Hremote.
  split; [done|].
  intros interleaved2 req2 Htok. unfold saveExercise.
  destruct (basicValidation req2) as [[[[g bid] bn] tok]|] eqn:Hbasic; [|done].
  apply basicValidation_Some in Hbasic as (_ & _ & _ & Htok2 & _).
  unfold saveExerciseTry, getExerciseDataFromGithub. rewrite Hremote.
  cbn [content sha].
  rewrite bool_decide_eq_true_2 by congruence. cbn [negb].
  destruct (has _ bid); [done|].
  destruct (processVariations _ _ _) as [[pv s']|]; [|done].
  cbn zeta. destruct (isEdit req2).
  - destruct (replaceOriginal _ _ _); [|done].
    by destruct (createOrUpdateFileContents _ _ _ _ _).
  - by destruct (createOrUpdateFileContents _ _ _ _ _).
Qed.

End read_claims.

(** X17, witness: the bench press is added, the document is read, and a
    second exercise is added with the token that was read. *)
Lemma read_after_write_witness :
  let req := addRequest "T1" "Chest" "bench-press" "Bench Press" None in
  let st := storeAt "T1" [] in
  let st1 := (saveExercise caseFoldCompare sampleSha id req st).2 in
  let req2 := addRequest "blob:Chest" "Legs" "squat" "Squat" None in
  (saveExercise caseFoldCompare sampleSha id req st).1
  = Status200 (Added "Bench Press" "Chest")
  ∧ (∃ doc', apiExercises st1 = ApiData doc' "blob:Chest")
  ∧ (saveExercise caseFoldCompare sampleSha id req2 st1).1 ≠ Status409.
Proof.
  intros req st st1 req2.
  destruct (saveExercise caseFoldCompare sampleSha id req st) as [r st1'] eqn:Hrun.
  assert (r = Status200 (Added "Bench Press" "Chest")) as ->
    by (by vm_compute in Hrun; injection Hrun as <- _).
  destruct (read_after_write caseFoldCompare sampleSha id req st _ _ Hrun)
    as (doc' & Hread & Hnext).
  assert (sampleSha doc' = "blob:Chest") as Hsha.
  { subst st1. cbn [snd] in *. vm_compute in Hrun. injection Hrun as <-.
    vm_compute in Hread. by injection Hread as <-. }
  subst st1. cbn [fst snd].
  split; [reflexivity|]. split; [exists doc'; by rewrite Hread, Hsha|].
  apply Hnext. by rewrite Hsha.
Defined.

(** ** The stored variations *)

Section variations_claims.
Variable localeCompare : string → string → Z.
Hypothesis localeCompare_total :
  ∀ a b, localeCompare a b <= 0 ∨ localeCompare b a <= 0.
Hypothesis localeCompare_trans :
  ∀ a b c, localeCompare a b <= 0 → localeCompare b c <= 0 →
           localeCompare a c <= 0.

(** X18.  The exercise object built from the processed variations: the
    [variations] field is left out exactly when there is no variation;
    otherwise it holds the processed variations, each one unchanged, so
    with its sub-variations in the order they were submitted, rearranged
    by name in the order of the collation. *)
Theorem stored_variations_sorted bid bn (processedVariations : list Node) :
  (e_variations (exerciseObject localeCompare bid bn processedVariations) = None
   ↔ processedVariations = [])
  ∧ ∀ l, e_variations (exerciseObject localeCompare bid bn processedVariations)
         = Some l →
         l ≡ₚ processedVariations
         ∧ StronglySorted (λ a b, localeCompare (n_name a) (n_name b) <= 0) l.
Proof.
  unfold exerciseObject. cbn [e_variations].
  destruct processedVariations as [|n pv]; [by split|].
  split; [by split|]. intros l Hl. injection Hl as <-.
  change (insertSorted (byNodeName localeCompare) n
            (sort (byNodeName localeCompare) pv))
    with (sort (byNodeName localeCompare) (n :: pv)).
  split; [apply sort_Permutation|].
  apply (sort_StronglySorted (byNodeName localeCompare));
    unfold byNodeName; eauto.
Qed.

End variations_claims.

(** X18, witness: two variations submitted in the order Incline, Flat. *)
Lemma stored_variations_sorted_witness :
  let pv := [leafNode "incline" "Incline"; leafNode "flat" "Flat"] in
  e_variations (exerciseObject caseFoldCompare "bench-press" "Bench Press" pv)
  = Some [leafNode "flat" "Flat"; leafNode "incline" "Incline"]
  ∧ [leafNode "flat" "Flat"; leafNode "incline" "Incline"] ≡ₚ pv
  ∧ StronglySorted (λ a b, caseFoldCompare (n_name a) (n_name b) <= 0)
      [leafNode "flat" "Flat"; leafNode "incline" "Incline"].
Proof.
  intros pv.
  assert (e_variations
            (exerciseObject caseFoldCompare "bench-press" "Bench Press" pv)
          = Some [leafNode "flat" "Flat"; leafNode "incline" "Incline"]) as Hl
    by (by vm_compute).
  split; [exact Hl|].
  exact (proj2 (stored_variations_sorted caseFoldCompare caseFoldCompare_total
                  caseFoldCompare_trans "bench-press" "Bench Press" pv) _ Hl).
Defined.
